(** * Stereo camera capture loop (stereo_camera_ffplay_flexible.py)

    A shallow embedding of the script: frames are numpy arrays of shape
    (h, w, 3), the module globals and the objects outside the program
    (cameras, video writers, the viewer pipe) live in one explicit world
    that every function threads, and an exception is a result of the
    computation, not a Rocq failure.  *)

From Stdlib Require Import ZArith Ascii String.
From stdpp Require Import base option list strings gmap.

(** ** Frames: numpy arrays of shape (h, w, 3), dtype uint8 *)

(** One pixel: its three channels in array order (index 0, 1, 2). *)
Definition pixel : Type := (Z * Z * Z)%type.

(** The array keeps its shape beside its rows, as numpy does: an array
    with no row still has a width. *)
Record ndarray : Type := mk_ndarray {
  shape_h : nat;
  shape_w : nat;
  rows : list (list pixel)
}.

(** The rows agree with the shape. Every array numpy builds is of this kind. *)
Definition wf_ndarray (a : ndarray) : Prop :=
  length (rows a) = shape_h a ∧ Forall (λ r, length r = shape_w a) (rows a).

Definition pixel_at (a : ndarray) (y x : nat) : option pixel :=
  rows a !! y ≫= λ r, r !! x.

(** The sub-array a[:, x0 : x0 + w]. *)
Definition columns (x0 w : nat) (a : ndarray) : list (list pixel) :=
  (λ r : list pixel, take w (drop x0 r)) <$> rows a.

(** ** Exceptions and results *)

Inductive exn : Type :=
| ValueError                      (* numpy: dimensions do not match *)
| RuntimeError (msg : string)
| AttributeError                  (* a method called on None *)
| ImportError
| LibraryError (what : string).   (* raised inside picamera2, cv2 or the OS *)

(** What running a piece of the script gives: a value, an exception on its
    way up, or no answer within the steps granted to a loop. *)
Inductive result (A : Type) : Type :=
| Ok (a : A)
| Raise (e : exn)
| OutOfFuel.
Arguments Ok {A} a.
Arguments Raise {A} e.
Arguments OutOfFuel {A}.

(** np.hstack((a, b)) on two arrays of three dimensions: concatenation
    along axis 1. numpy asks that the other axes agree (here the number of
    rows; the channel axis is 3 by type) and raises ValueError otherwise.
    It does not compare the widths. *)
Definition hstack (a b : ndarray) : result ndarray :=
  if decide (shape_h a = shape_h b)
  then Ok {| shape_h := shape_h a;
             shape_w := (shape_w a + shape_w b)%nat;
             rows := zip_with app (rows a) (rows b) |}
  else Raise ValueError.

(** cv2.cvtColor(img, cv2.COLOR_RGB2BGR): a new array with channels 0 and 2
    exchanged. *)
Definition swap_rb (p : pixel) : pixel :=
  let '(c0, c1, c2) := p in (c2, c1, c0).

Definition cvtColor (a : ndarray) : ndarray :=
  {| shape_h := shape_h a; shape_w := shape_w a;
     rows := (λ r : list pixel, swap_rb <$> r) <$> rows a |}.

(** ndarray.tobytes(): the channels in row-major order. *)
Definition tobytes (a : ndarray) : list Z :=
  mjoin ((λ r : list pixel,
    mjoin ((λ p : pixel, let '(c0, c1, c2) := p in [c0; c1; c2]) <$> r)) <$> rows a).

(** ** The world the script runs in *)

(** A Picamera2 object, as far as the script drives it. *)
Inductive CamStatus : Type := CamOpened | CamConfigured | CamStarted | CamStopped.

(** Every call that leaves the program, in the order it was made. *)
Inductive Event : Type :=
| EvPrint (msg : string)
| EvSleep (seconds : nat)
| EvMakedirs (path : string)
| EvCamNew (i : nat)
| EvCamConfigure (i : nat) (size : nat * nat) (format : string)
| EvCamStart (i : nat)
| EvCamStop (i : nat)
| EvCapture (i : nat)
| EvWriterNew (h : nat) (path : string) (fps : nat) (size : nat * nat) (opened : bool)
| EvWriterWrite (h : nat) (frame : ndarray)
| EvWriterRelease (h : nat)
| EvPopen (width height : nat)
| EvPipeWrite (bytes : list Z)
| EvTerminate
| EvPipeClose
| EvGpioSetup (pin : nat)
| EvGpioDetect (pin : nat) (bouncetime : nat)
| EvGpioCleanup
| EvThreadStart
| EvThreadJoin.

Record World : Type := mk_World {
  (* module globals *)
  gpio_available : bool;
  is_recording : bool;
  out : option nat;               (* None, or the cv2.VideoWriter held *)
  stop_event : bool;
  (* the StereoCamera instance *)
  camera1 : option nat;
  camera2 : option nat;
  (* outside the program *)
  devices : gmap nat CamStatus;   (* the Picamera2 objects, by camera index *)
  writers_made : nat;             (* cv2.VideoWriter objects constructed so far *)
  captures : nat;                 (* capture_array calls made so far *)
  tick : nat;                     (* iterations of the capture loop so far *)
  keyboard_alive : bool;          (* the keyboard thread is still in its loop *)
  trace : list Event
}.

Definition set_gpio_available (b : bool) (w : World) : World :=
  mk_World b (is_recording w) (out w) (stop_event w) (camera1 w) (camera2 w) (devices w)
    (writers_made w) (captures w) (tick w) (keyboard_alive w) (trace w).
Definition set_is_recording (b : bool) (w : World) : World :=
  mk_World (gpio_available w) b (out w) (stop_event w) (camera1 w) (camera2 w) (devices w)
    (writers_made w) (captures w) (tick w) (keyboard_alive w) (trace w).
Definition set_out (o : option nat) (w : World) : World :=
  mk_World (gpio_available w) (is_recording w) o (stop_event w) (camera1 w) (camera2 w)
    (devices w) (writers_made w) (captures w) (tick w) (keyboard_alive w) (trace w).
Definition set_stop_event (b : bool) (w : World) : World :=
  mk_World (gpio_available w) (is_recording w) (out w) b (camera1 w) (camera2 w) (devices w)
    (writers_made w) (captures w) (tick w) (keyboard_alive w) (trace w).
Definition set_camera1 (c : option nat) (w : World) : World :=
  mk_World (gpio_available w) (is_recording w) (out w) (stop_event w) c (camera2 w) (devices w)
    (writers_made w) (captures w) (tick w) (keyboard_alive w) (trace w).
Definition set_camera2 (c : option nat) (w : World) : World :=
  mk_World (gpio_available w) (is_recording w) (out w) (stop_event w) (camera1 w) c (devices w)
    (writers_made w) (captures w) (tick w) (keyboard_alive w) (trace w).
Definition set_devices (d : gmap nat CamStatus) (w : World) : World :=
  mk_World (gpio_available w) (is_recording w) (out w) (stop_event w) (camera1 w) (camera2 w) d
    (writers_made w) (captures w) (tick w) (keyboard_alive w) (trace w).
Definition set_writers_made (n : nat) (w : World) : World :=
  mk_World (gpio_available w) (is_recording w) (out w) (stop_event w) (camera1 w) (camera2 w)
    (devices w) n (captures w) (tick w) (keyboard_alive w) (trace w).
Definition set_captures (n : nat) (w : World) : World :=
  mk_World (gpio_available w) (is_recording w) (out w) (stop_event w) (camera1 w) (camera2 w)
    (devices w) (writers_made w) n (tick w) (keyboard_alive w) (trace w).
Definition set_tick (n : nat) (w : World) : World :=
  mk_World (gpio_available w) (is_recording w) (out w) (stop_event w) (camera1 w) (camera2 w)
    (devices w) (writers_made w) (captures w) n (keyboard_alive w) (trace w).
Definition set_keyboard_alive (b : bool) (w : World) : World :=
  mk_World (gpio_available w) (is_recording w) (out w) (stop_event w) (camera1 w) (camera2 w)
    (devices w) (writers_made w) (captures w) (tick w) b (trace w).
Definition set_trace (t : list Event) (w : World) : World :=
  mk_World (gpio_available w) (is_recording w) (out w) (stop_event w) (camera1 w) (camera2 w)
    (devices w) (writers_made w) (captures w) (tick w) (keyboard_alive w) t.

(** The interpreter starts the script with nothing open. The globals
    [is_recording], [out] and [stop_event] get their values in [main]. *)
Definition boot : World :=
  mk_World false false None false None None ∅ 0 0 0 false [].

(** ** Programs: state passing with exceptions *)

Definition Prog (A : Type) : Type := World → result A * World.

Definition ret {A} (a : A) : Prog A := λ w, (Ok a, w).

Definition bind {A B} (m : Prog A) (k : A → Prog B) : Prog B := λ w,
  match m w with
  | (Ok a, w') => k a w'
  | (Raise e, w') => (Raise e, w')
  | (OutOfFuel, w') => (OutOfFuel, w')
  end.

Declare Scope prog_scope.
Delimit Scope prog_scope with prog.
Notation "x <- y ;; z" := (bind y (λ x, z))
  (at level 100, y at next level, z at level 200, only parsing, right associativity) : prog_scope.
Notation "y ;; z" := (bind y (λ _, z))
  (at level 100, z at level 200, only parsing, right associativity) : prog_scope.
Open Scope prog_scope.

Definition raise {A} (e : exn) : Prog A := λ w, (Raise e, w).
Definition out_of_fuel {A} : Prog A := λ w, (OutOfFuel, w).
Definition gets {A} (f : World → A) : Prog A := λ w, (Ok (f w), w).
Definition modify (f : World → World) : Prog unit := λ w, (Ok tt, f w).
Definition lift {A} (r : result A) : Prog A := λ w, (r, w).
Definition emit (e : Event) : Prog unit := modify (λ w, set_trace (trace w ++ [e]) w).
Definition print (msg : string) : Prog unit := emit (EvPrint msg).
Definition sleep (seconds : nat) : Prog unit := emit (EvSleep seconds).

(** try: m except Exception as e: h e *)
Definition try_except {A} (m : Prog A) (h : exn → Prog A) : Prog A := λ w,
  match m w with
  | (Raise e, w') => h e w'
  | r => r
  end.

(** try: m finally: f. The pending result of [m] stands unless [f] raises. *)
Definition try_finally {A} (m : Prog A) (f : Prog unit) : Prog A := λ w,
  match m w with
  | (OutOfFuel, w') => (OutOfFuel, w')
  | (r, w') =>
      match f w' with
      | (Ok _, w'') => (r, w'')
      | (Raise e, w'') => (Raise e, w'')
      | (OutOfFuel, w'') => (OutOfFuel, w'')
      end
  end.

(** str(e), as the f-strings of the script print it. *)
Definition str_exn (e : exn) : string :=
  match e with
  | ValueError => "all the input array dimensions except for the concatenation axis must match exactly"
  | RuntimeError msg => msg
  | AttributeError => "'NoneType' object has no attribute"
  | ImportError => "No module named RPi"
  | LibraryError what => what
  end.

(** ** What the script cannot decide: the devices, the libraries, the user *)

Inductive CamStep : Type := StepNew | StepConfigure | StepStart.
Inductive CtorOutcome : Type := CtorOpened | CtorUnopened | CtorRaises.
Inductive Input : Type := Key (c : ascii) | Button (channel : nat).

#[global] Instance CamStep_eq_dec : EqDecision CamStep.
Proof. solve_decision. Defined.
#[global] Instance CtorOutcome_eq_dec : EqDecision CtorOutcome.
Proof. solve_decision. Defined.
#[global] Instance CamStatus_eq_dec : EqDecision CamStatus.
Proof. solve_decision. Defined.

Record Env : Type := mk_Env {
  (* import RPi.GPIO and the pin setup succeed *)
  gpio_present : bool;
  (* the step at which bringing up camera i fails, if any *)
  camera_fault : nat → option CamStep;
  (* capture_array() of camera i, in its status, as the n-th capture *)
  sensor : nat → option CamStatus → nat → result ndarray;
  (* the n-th cv2.VideoWriter(...): an opened writer, a writer that did not
     open (isOpened() is False), or an exception *)
  writer_ctor : nat → CtorOutcome;
  (* time.strftime at the n-th toggle that starts a recording *)
  strftime : nat → string;
  (* subprocess.Popen finds and starts ffplay *)
  ffplay_launches : bool;
  (* os.write to the pipe in iteration n goes through *)
  pipe_accepts : nat → bool;
  (* the pixels (x, y) that cv2.putText covers for a text, an origin, a
     scale and a thickness: OpenCV's rendering of its Hershey font *)
  raster : string → nat * nat → nat → nat → list (nat * nat);
  (* the keys read and the buttons pressed before iteration n *)
  inputs : nat → list Input
}.

(** ** The script *)

Definition RECORD_BUTTON_PIN : nat := 17.
Definition QUIT_BUTTON_PIN : nat := 27.
Definition resolution : nat * nat := (640, 480).
Definition framerate : nat := 30.
Definition recordings_dir : string := "recordings".

(** str.lower() on one character with a code below 256: the capitals A-Z
    and the Latin-1 capitals (all of 0xC0-0xDE but the times sign). *)
Definition lower_char (c : ascii) : ascii :=
  let n := N_of_ascii c in
  if ((65 <=? n) && (n <=? 90))%N then ascii_of_N (n + 32)
  else if ((192 <=? n) && (n <=? 222) && negb (n =? 215))%N then ascii_of_N (n + 32)
  else c.

Fixpoint lower (s : string) : string :=
  match s with
  | EmptyString => EmptyString
  | String c s' => String (lower_char c) (lower s')
  end.

(** Painting one pixel. Outside the image nothing is painted. *)
Definition paint (color : pixel) (img : ndarray) (xy : nat * nat) : ndarray :=
  {| shape_h := shape_h img; shape_w := shape_w img;
     rows := alter (λ r : list pixel, <[xy.1 := color]> r) xy.2 (rows img) |}.

(** An image carries a mark when each pixel of the mark that lies inside
    the image has the mark's colour. *)
Definition marked (mark : list (nat * nat)) (color : pixel) (img : ndarray) : Prop :=
  ∀ x y, (x, y) ∈ mark → is_Some (pixel_at img y x) → pixel_at img y x = Some color.

(** What one pass of the keyboard loop or of the capture loop asks for. *)
Inductive loop_ctl : Type := Continue | Break.

(** out = None; is_recording = False; stop_event = threading.Event() *)
Definition init_globals (w : World) : World :=
  set_stop_event false (set_is_recording false (set_out None w)).

Section Script.
Variable E : Env.

(** *** class StereoCamera *)

Definition set_device (i : nat) (s : CamStatus) : Prog unit :=
  modify (λ w, set_devices (<[i := s]> (devices w)) w).

Definition Picamera2 (i : nat) : Prog nat :=
  if decide (camera_fault E i = Some StepNew) then raise (LibraryError "Picamera2")
  else emit (EvCamNew i);; set_device i CamOpened;; ret i.

Definition configure (c : nat) (size : nat * nat) (format : string) : Prog unit :=
  if decide (camera_fault E c = Some StepConfigure) then raise (LibraryError "configure")
  else emit (EvCamConfigure c size format);; set_device c CamConfigured.

Definition start (c : nat) : Prog unit :=
  if decide (camera_fault E c = Some StepStart) then raise (LibraryError "start")
  else emit (EvCamStart c);; set_device c CamStarted.

Definition stop (c : nat) : Prog unit :=
  emit (EvCamStop c);; set_device c CamStopped.

Definition capture_array (c : nat) : Prog ndarray :=
  emit (EvCapture c);;
  st <- gets (λ w, devices w !! c);;
  n <- gets captures;;
  modify (set_captures (S n));;
  lift (sensor E c st n).

Definition init_cameras : Prog unit :=
  print "Initializing camera 1...";;
  c1 <- Picamera2 0;;
  modify (set_camera1 (Some c1));;
  configure c1 resolution "RGB888";;
  start c1;;
  print "Camera 1 initialized";;
  sleep 2;;
  print "Initializing camera 2...";;
  c2 <- Picamera2 1;;
  modify (set_camera2 (Some c2));;
  configure c2 resolution "RGB888";;
  start c2;;
  print "Camera 2 initialized";;
  sleep 2;;
  print "Both cameras initialized".

Definition __init__ : Prog unit :=
  modify (set_camera1 None);;
  modify (set_camera2 None);;
  try_except init_cameras
    (λ e, print ("Error initializing cameras: " +:+ str_exn e);; raise e).

Definition capture_stereo : Prog (ndarray * ndarray) :=
  c1 <- gets camera1;;
  c2 <- gets camera2;;
  match c1, c2 with
  | Some a, Some b =>
      frame1 <- capture_array a;;
      frame2 <- capture_array b;;
      ret (frame1, frame2)
  | _, _ => raise (RuntimeError "Cameras not properly initialized")
  end.

Definition close : Prog unit :=
  c1 <- gets camera1;;
  (if c1 is Some a then stop a else ret tt);;
  c2 <- gets camera2;;
  (if c2 is Some b then stop b else ret tt);;
  print "Cameras stopped".

(** *** The recording toggle *)

Definition VideoWriter (path : string) (fps : nat) (size : nat * nat) : Prog nat :=
  h <- gets writers_made;;
  match writer_ctor E h with
  | CtorRaises => raise (LibraryError "cv2.VideoWriter")
  | outcome =>
      modify (set_writers_made (S h));;
      emit (EvWriterNew h path fps size (bool_decide (outcome = CtorOpened)));;
      ret h
  end.

Definition release (o : option nat) : Prog unit :=
  match o with
  | Some h => emit (EvWriterRelease h)
  | None => raise AttributeError
  end.

Definition write (o : option nat) (frame : ndarray) : Prog unit :=
  match o with
  | Some h => emit (EvWriterWrite h frame)
  | None => raise AttributeError
  end.

Definition toggle_recording : Prog unit :=
  rec <- gets is_recording;;
  if negb rec then
    n <- gets writers_made;;
    let timestamp := strftime E n in
    let output_filename := recordings_dir +:+ "/" +:+ "stereo_output_" +:+ timestamp +:+ ".mp4" in
    h <- VideoWriter output_filename framerate ((resolution.1 * 2)%nat, resolution.2);;
    modify (set_out (Some h));;
    modify (set_is_recording true);;
    print ("Started recording: " +:+ output_filename)
  else
    modify (set_is_recording false);;
    o <- gets out;;
    release o;;
    modify (set_out None);;
    print "Stopped recording".

(** *** The two sources of commands *)

Definition button_callback (channel : nat) : Prog unit :=
  if decide (channel = RECORD_BUTTON_PIN) then toggle_recording
  else if decide (channel = QUIT_BUTTON_PIN) then
    print "Quit button pressed";;
    modify (set_stop_event true)
  else ret tt.

(** The body of the loop of [keyboard_input] once a character is there to
    read: [read] is what sys.stdin.read(1) returned. *)
Definition keyboard_key (read : string) : Prog loop_ctl :=
  let key := lower read in
  if decide (key = "r") then toggle_recording;; ret Continue
  else if decide (key = "q") then
    print "Quit command received";;
    modify (set_stop_event true);;
    ret Break
  else ret Continue.

(** The keyboard thread over the characters that arrive in one slice of
    time. An exception ends the thread and nothing else. *)
Fixpoint keyboard_input (reads : list string) : Prog unit :=
  alive <- gets keyboard_alive;;
  stopped <- gets stop_event;;
  if negb alive then ret tt
  else if stopped then modify (set_keyboard_alive false)
  else match reads with
       | [] => ret tt
       | read :: reads' =>
           try_except
             (ctl <- keyboard_key read;;
              match ctl with
              | Break => modify (set_keyboard_alive false)
              | Continue => keyboard_input reads'
              end)
             (λ _, modify (set_keyboard_alive false))
       end.

(** One command from the user, as the thread that receives it runs it. A
    button reaches the program only if its callback was registered; what
    the callback raises stays in the GPIO library's thread. *)
Definition deliver (i : Input) : Prog unit :=
  match i with
  | Key c => keyboard_input [String c EmptyString]
  | Button channel =>
      gpio <- gets gpio_available;;
      if gpio then try_except (button_callback channel) (λ _, ret tt) else ret tt
  end.

Fixpoint deliver_all (ins : list Input) : Prog unit :=
  match ins with
  | [] => ret tt
  | i :: ins' => deliver i;; deliver_all ins'
  end.

(** *** main *)

Definition setup_gpio : Prog unit :=
  try_except
    ((if gpio_present E then ret tt else raise ImportError);;
     emit (EvGpioSetup RECORD_BUTTON_PIN);;
     emit (EvGpioSetup QUIT_BUTTON_PIN);;
     modify (set_gpio_available true);;
     print "GPIO setup successful")
    (λ e, match e with
          | ImportError | RuntimeError _ =>
              print "GPIO is not available. Falling back to keyboard-only controls.";;
              modify (set_gpio_available false)
          | _ => raise e
          end).

Definition ffplay_display (width height : nat) : Prog unit :=
  if ffplay_launches E then emit (EvPopen width height)
  else raise (LibraryError "ffplay").

Definition os_write (bytes : list Z) : Prog unit :=
  n <- gets tick;;
  if pipe_accepts E n then emit (EvPipeWrite bytes)
  else raise (LibraryError "Broken pipe").

(** cv2.putText(img, text, org, font, scale, color, thickness): the pixels
    the text covers take the colour, in place. *)
Definition putText (img : ndarray) (text : string) (org : nat * nat)
    (fontScale : nat) (color : pixel) (thickness : nat) : ndarray :=
  foldl (paint color) img (raster E text org fontScale thickness).

(** The body of the capture loop. [stitched_frame] is a local array: the
    writer gets a converted copy of it, then cv2.putText changes it in
    place, then the pipe gets the bytes of a converted copy. *)
Definition loop_body : Prog unit :=
  frames <- capture_stereo;;
  let '(frame1, frame2) := frames in
  stitched_frame <- lift (hstack frame1 frame2);;
  rec <- gets is_recording;;
  o <- gets out;;
  (if rec && bool_decide (o ≠ None)
   then write o (cvtColor stitched_frame)
   else ret tt);;
  rec <- gets is_recording;;
  let stitched_frame :=
    if rec then putText stitched_frame "REC" (50, 50)%nat 1 (0, 0, 255)%Z 2
    else stitched_frame in
  os_write (tobytes (cvtColor stitched_frame)).

(** while not stop_event.is_set(): ... The commands of the other threads
    are taken between two iterations. *)
Fixpoint capture_loop (fuel : nat) : Prog unit :=
  match fuel with
  | O => out_of_fuel
  | S fuel' =>
      n <- gets tick;;
      deliver_all (inputs E n);;
      stopped <- gets stop_event;;
      if stopped then ret tt
      else loop_body;; modify (set_tick (S n));; capture_loop fuel'
  end.

Definition finally_block : Prog unit :=
  modify (set_stop_event true);;
  keyboard_input [];;
  emit EvThreadJoin;;
  o <- gets out;;
  (if bool_decide (o ≠ None) then release o else ret tt);;
  close;;
  emit EvTerminate;;
  emit EvPipeClose;;
  gpio <- gets gpio_available;;
  (if gpio then emit EvGpioCleanup else ret tt);;
  print "Program ended".

(** Lines 138-184 of [main]: the viewer, the globals, the listeners, the
    loop under its try, and the finally block. *)
Definition capture_session (fuel : nat) : Prog unit :=
  ffplay_display (resolution.1 * 2)%nat resolution.2;;
  modify init_globals;;
  gpio <- gets gpio_available;;
  (if gpio then
     print "Press 'r' or the record button to start/stop recording, 'q' or the quit button to quit";;
     emit (EvGpioDetect RECORD_BUTTON_PIN 300);;
     emit (EvGpioDetect QUIT_BUTTON_PIN 300)
   else print "Press 'r' to start/stop recording, 'q' to quit");;
  modify (set_keyboard_alive true);;
  emit EvThreadStart;;
  try_finally
    (try_except (capture_loop fuel)
       (λ e, print ("Error during capture: " +:+ str_exn e)))
    finally_block.

Definition main (fuel : nat) : Prog unit :=
  emit (EvMakedirs recordings_dir);;
  setup_gpio;;
  made <- try_except (__init__;; ret true)
            (λ e, print ("Failed to initialize stereo camera: " +:+ str_exn e);; ret false);;
  if negb made then ret tt
  else capture_session fuel.

(** The exit code of the interpreter: 0 when [main] returns, 1 when an
    exception leaves it, none while the script still runs. *)
Definition exit_code (r : result unit) : option Z :=
  match r with
  | Ok _ => Some 0%Z
  | Raise _ => Some 1%Z
  | OutOfFuel => None
  end.

Definition run (fuel : nat) : option Z * World :=
  let '(r, w) := main fuel boot in (exit_code r, w).

End Script.

(** ** Reading a run *)

Definition is_writer_new (e : Event) : bool :=
  match e with EvWriterNew _ _ _ _ _ => true | _ => false end.
Definition is_writer_release (e : Event) : bool :=
  match e with EvWriterRelease _ => true | _ => false end.
Definition is_camera_stop (e : Event) : bool :=
  match e with EvCamStop _ => true | _ => false end.
Definition is_capture (e : Event) : bool :=
  match e with EvCapture _ => true | _ => false end.
Definition is_popen (e : Event) : bool :=
  match e with EvPopen _ _ => true | _ => false end.

(** The name of the file the n-th recording goes to. *)
Definition output_filename (E : Env) (n : nat) : string :=
  recordings_dir +:+ "/" +:+ "stereo_output_" +:+ strftime E n +:+ ".mp4".

(** The calls the start of the cameras makes. *)
Definition is_startup_event (e : Event) : bool :=
  match e with
  | EvPrint _ | EvSleep _ | EvCamNew _ | EvCamConfigure _ _ _ | EvCamStart _ => true
  | _ => false
  end.

(** How many video sinks a run opened, and how many it closed. *)
Definition sinks_opened (t : list Event) : nat := length (List.filter is_writer_new t).
Definition sinks_closed (t : list Event) : nat := length (List.filter is_writer_release t).

(** The two states of the recording controller. *)
Definition Idle (w : World) : Prop := is_recording w = false ∧ out w = None.
Definition Recording (w : World) (h : nat) : Prop := is_recording w = true ∧ out w = Some h.

(** is_recording == (out is not None) *)
Definition flag_matches_sink (w : World) : Prop :=
  is_recording w = bool_decide (out w ≠ None).

(** The writer held in [out] was constructed and has not been released. *)
Definition held_sink_open (w : World) : Prop :=
  ∀ h, out w = Some h → (h < writers_made w)%nat ∧ EvWriterRelease h ∉ trace w.

(** Only writers that were constructed have been released. *)
Definition releases_known (w : World) : Prop :=
  ∀ h, EvWriterRelease h ∈ trace w → (h < writers_made w)%nat.

Definition session_inv (w : World) : Prop :=
  flag_matches_sink w ∧ held_sink_open w ∧ releases_known w.

(** Two worlds with the same recording session: the flags, [out] and the
    writers constructed agree, and the later one has released nothing more. *)
Definition same_session (w w' : World) : Prop :=
  is_recording w' = is_recording w
  ∧ out w' = out w
  ∧ writers_made w' = writers_made w
  ∧ stop_event w' = stop_event w
  ∧ ∀ h, EvWriterRelease h ∈ trace w' → EvWriterRelease h ∈ trace w.

Definition keeps_session {A} (m : Prog A) : Prop :=
  ∀ w r w', m w = (r, w') → same_session w w'.

(** A program that returns from every world. *)
Definition always_returns {A} (m : Prog A) : Prop :=
  ∀ w, ∃ a w', m w = (Ok a, w').

(** A program whose result, from every world, is one of those in [P]. *)
Definition ends_in {A} (P : result A → Prop) (m : Prog A) : Prop :=
  ∀ w, P (m w).1.

(** The ways [main] can be left once the loop is under its try. *)
Definition returned_or_running (r : result unit) : Prop := r = Ok tt ∨ r = OutOfFuel.

(** The states the controller goes through: calls of [toggle_recording],
    whatever they return, and passes of the capture loop. *)
Inductive reachable (E : Env) (w0 : World) : World → Prop :=
| reachable_start : reachable E w0 w0
| reachable_toggle w w' r :
    reachable E w0 w → toggle_recording E w = (r, w') → reachable E w0 w'
| reachable_frame w w' r :
    reachable E w0 w → loop_body E w = (r, w') → reachable E w0 w'.

(** ** Sample data *)

Definition solid (h w : nat) (p : pixel) : ndarray :=
  {| shape_h := h; shape_w := w; rows := replicate h (replicate w p) |}.

Definition frame_A : ndarray :=
  {| shape_h := 2; shape_w := 2;
     rows := [[(1, 2, 3); (4, 5, 6)]; [(7, 8, 9); (10, 11, 12)]]%Z |}.
Definition frame_B : ndarray :=
  {| shape_h := 2; shape_w := 2;
     rows := [[(21, 22, 23); (24, 25, 26)]; [(27, 28, 29); (30, 31, 32)]]%Z |}.
Definition frame_wide : ndarray :=
  {| shape_h := 2; shape_w := 3;
     rows := [[(41, 42, 43); (44, 45, 46); (47, 48, 49)];
              [(51, 52, 53); (54, 55, 56); (57, 58, 59)]]%Z |}.
Definition frame_tall : ndarray :=
  {| shape_h := 3; shape_w := 2;
     rows := [[(1, 1, 1); (2, 2, 2)]; [(3, 3, 3); (4, 4, 4)]; [(5, 5, 5); (6, 6, 6)]]%Z |}.

Definition black_frame : ndarray := solid 60 40 (0, 0, 0)%Z.
Definition black_pair : ndarray := solid 60 80 (0, 0, 0)%Z.

(** A machine on which everything works: both cameras deliver black
    60 x 40 frames once started, the writer opens, ffplay starts, and the
    text covers three pixels at its origin. *)
Definition sensor_started (i : nat) (st : option CamStatus) (n : nat) : result ndarray :=
  match st with
  | Some CamStarted => Ok black_frame
  | _ => Raise (LibraryError "camera not started")
  end.

Definition raster_sample (text : string) (org : nat * nat) (scale thickness : nat)
    : list (nat * nat) :=
  [(org.1, org.2); (S org.1, org.2); (org.1, org.2 - 1)%nat].

Definition env_fine : Env :=
  {| gpio_present := false;
     camera_fault := λ _, None;
     sensor := sensor_started;
     writer_ctor := λ _, CtorOpened;
     strftime := λ _, "20240101-120000";
     ffplay_launches := true;
     pipe_accepts := λ _, true;
     raster := raster_sample;
     inputs := λ _, [] |}.

Definition with_inputs (E : Env) (ins : nat → list Input) : Env :=
  mk_Env (gpio_present E) (camera_fault E) (sensor E) (writer_ctor E) (strftime E)
    (ffplay_launches E) (pipe_accepts E) (raster E) ins.
Definition with_camera_fault (E : Env) (f : nat → option CamStep) : Env :=
  mk_Env (gpio_present E) f (sensor E) (writer_ctor E) (strftime E)
    (ffplay_launches E) (pipe_accepts E) (raster E) (inputs E).
Definition with_writer_ctor (E : Env) (c : nat → CtorOutcome) : Env :=
  mk_Env (gpio_present E) (camera_fault E) (sensor E) c (strftime E)
    (ffplay_launches E) (pipe_accepts E) (raster E) (inputs E).
Definition with_sensor (E : Env) (s : nat → option CamStatus → nat → result ndarray) : Env :=
  mk_Env (gpio_present E) (camera_fault E) s (writer_ctor E) (strftime E)
    (ffplay_launches E) (pipe_accepts E) (raster E) (inputs E).
Definition with_ffplay (E : Env) (b : bool) : Env :=
  mk_Env (gpio_present E) (camera_fault E) (sensor E) (writer_ctor E) (strftime E)
    b (pipe_accepts E) (raster E) (inputs E).

(** The writer does not open: cv2.VideoWriter returns an object whose
    isOpened() is False. *)
Definition env_sink_unopened : Env := with_writer_ctor env_fine (λ _, CtorUnopened).

(** The second camera is not there. *)
Definition env_camera2_missing : Env :=
  with_camera_fault env_fine (λ i, if decide (i = 1%nat) then Some StepNew else None).

(** A driver that still hands out frames from a stopped camera. *)
Definition env_lenient : Env :=
  with_sensor env_fine (λ _ _ _, Ok black_frame).

(** The user presses r, then R, then q. *)
Definition env_session : Env :=
  with_inputs env_fine
    (λ n, match n with
          | 1 => [Key "r"]
          | 3 => [Key "R"]
          | 4 => [Key "q"]
          | _ => []
          end%nat).

(** The user types q before the first frame. *)
Definition env_quit : Env :=
  with_inputs env_fine (λ n, match n with O => [Key "q"] | _ => [] end).

(** A world in which a recording is running on writer 0. *)
Definition world_recording : World :=
  let w := (__init__ env_fine boot).2 in
  (toggle_recording env_fine (set_keyboard_alive true (init_globals w))).2.

(** ** Reading a session *)

(** A property of the world that a program keeps, however it ends. *)
Definition preserves {A} (I : World → Prop) (m : Prog A) : Prop :=
  ∀ w r w', I w → m w = (r, w') → I w'.

(** Every writer constructed and no longer held has been released, and
    the one held, if any, has not. *)
Definition writers_balanced (w : World) : Prop :=
  is_recording w = bool_decide (out w ≠ None)
  ∧ sinks_opened (trace w)
    = (sinks_closed (trace w) + (if out w is Some _ then 1 else 0))%nat.

(** The object holds both cameras. *)
Definition cameras_held (w : World) : Prop :=
  camera1 w = Some 0%nat ∧ camera2 w = Some 1%nat.

Definition session_ok (w : World) : Prop := writers_balanced w ∧ cameras_held w.

(** An event that constructs or releases a video writer. *)
Definition is_writer_lifecycle (e : Event) : bool :=
  is_writer_new e || is_writer_release e.

(** What the finally block of [main] does, in order. *)
Definition shutdown_events (w : World) : list Event :=
  [EvThreadJoin]
  ++ (if out w is Some h then [EvWriterRelease h] else [])
  ++ (if camera1 w is Some a then [EvCamStop a] else [])
  ++ (if camera2 w is Some b then [EvCamStop b] else [])
  ++ [EvPrint "Cameras stopped"; EvTerminate; EvPipeClose]
  ++ (if gpio_available w then [EvGpioCleanup] else [])
  ++ [EvPrint "Program ended"].

(** The device table once the cameras the object holds are stopped. *)
Definition stopped_devices (w : World) : gmap nat CamStatus :=
  let d1 := if camera1 w is Some a then <[a := CamStopped]> (devices w) else devices w in
  if camera2 w is Some b then <[b := CamStopped]> d1 else d1.

(** As many writers released as constructed. *)
Definition writers_settled (w : World) : Prop :=
  sinks_opened (trace w) = sinks_closed (trace w).

(** Nothing is recording and nothing is left to release. *)
Definition idle_settled (w : World) : Prop := Idle w ∧ writers_settled w.

(** How [main] leaves the world when it ends after a session. *)
Definition shutdown_done (w : World) : Prop :=
  writers_settled w
  ∧ devices w !! 0%nat = Some CamStopped
  ∧ devices w !! 1%nat = Some CamStopped
  ∧ stop_event w = true
  ∧ keyboard_alive w = false
  ∧ cameras_held w
  ∧ ∃ before, trace w = before ++ shutdown_events w.

(** The stop flag is up and [c] frames have been asked of the cameras. *)
Definition stopped_at (c : nat) (w : World) : Prop :=
  stop_event w = true ∧ captures w = c.

Definition is_pipe_write (e : Event) : bool :=
  match e with EvPipeWrite _ => true | _ => false end.
Definition is_writer_write (e : Event) : bool :=
  match e with EvWriterWrite _ _ => true | _ => false end.

(** How many frames a run sent to the viewer, and how many to a video writer. *)
Definition display_writes (t : list Event) : nat := length (List.filter is_pipe_write t).
Definition recorder_writes (t : list Event) : nat := length (List.filter is_writer_write t).

(** A machine that gives the loop nothing to react to: no command ever
    arrives, a started camera delivers a frame of height [h] whenever asked,
    and the pipe takes every frame. *)
Definition undisturbed (E : Env) (h : nat) : Prop :=
  (∀ t, inputs E t = [])
  ∧ (∀ t, pipe_accepts E t = true)
  ∧ (∀ i k, ∃ f, sensor E i (Some CamStarted) k = Ok f ∧ shape_h f = h).

(** Nothing has been captured and the loop has not turned yet. *)
Definition fresh_counters (w : World) : Prop := captures w = 0%nat ∧ tick w = 0%nat.

(** No camera has been asked to stop. *)
Definition no_camera_stopped (w : World) : Prop :=
  List.filter is_camera_stop (trace w) = [].

(** ** More sample data *)

(** The user starts a recording and quits while it runs. *)
Definition env_quit_recording : Env :=
  with_inputs env_fine
    (λ n, match n with
          | 1 => [Key "r"]
          | 3 => [Key "q"]
          | _ => []
          end%nat).

Definition with_pipe (E : Env) (p : nat → bool) : Env :=
  mk_Env (gpio_present E) (camera_fault E) (sensor E) (writer_ctor E) (strftime E)
    (ffplay_launches E) p (raster E) (inputs E).

(** The video writer cannot be constructed. *)
Definition env_writer_raises : Env := with_writer_ctor env_fine (λ _, CtorRaises).

(** The second camera stops delivering. *)
Definition env_camera2_dropout : Env :=
  with_sensor env_fine
    (λ i st n, if decide (i = 1%nat) then Raise (LibraryError "capture timed out")
               else sensor_started i st n).

(** The viewer has gone: the pipe takes nothing. *)
Definition env_viewer_gone : Env := with_pipe env_fine (λ _, false).

(** The world as the capture loop finds it on a machine where all works. *)
Definition world_ready : World :=
  set_keyboard_alive true (init_globals (__init__ env_fine boot).2).

(** The first camera fails its first capture. *)
Definition env_camera1_dead : Env :=
  with_sensor env_fine
    (λ i st n, if decide (i = 0%nat) then Raise (LibraryError "capture timed out")
               else sensor_started i st n).

(** ** Frames *)

Lemma columns_zip_with_app (wa wb : nat) (ra rb : list (list pixel)) :
  length ra = length rb →
  Forall (λ r, length r = wa) ra →
  Forall (λ r, length r = wb) rb →
  (λ r : list pixel, take wa (drop 0 r)) <$> zip_with app ra rb = ra
  ∧ (λ r : list pixel, take wb (drop wa r)) <$> zip_with app ra rb = rb.
Proof.
  revert rb. induction ra as [|r ra IH]; intros [|s rb] Hlen Ha Hb; simplify_eq/=; [done|].
  apply Forall_cons in Ha as [Hr Ha]. apply Forall_cons in Hb as [Hs Hb].
  destruct (IH rb Hlen Ha Hb) as [IHl IHr]. split; f_equal; try done.
  - rewrite drop_0, take_app_le by lia. apply take_ge; lia.
  - rewrite drop_app_ge by lia. rewrite Hr, Nat.sub_diag. simpl. apply take_ge; lia.
Qed.

Lemma wf_zip_with_app (wa wb : nat) (ra rb : list (list pixel)) :
  length ra = length rb →
  Forall (λ r, length r = wa) ra →
  Forall (λ r, length r = wb) rb →
  length (zip_with app ra rb) = length ra
  ∧ Forall (λ r, length r = (wa + wb)%nat) (zip_with app ra rb).
Proof.
  revert rb. induction ra as [|r ra IH]; intros [|s rb] Hlen Ha Hb; simplify_eq/=; [done|].
  apply Forall_cons in Ha as [Hr Ha]. apply Forall_cons in Hb as [Hs Hb].
  destruct (IH rb Hlen Ha Hb) as [IHl IHr]. split; [by f_equal|].
  constructor; [|done]. rewrite length_app. lia.
Qed.

Lemma hstack_ok (a b : ndarray) :
  shape_h a = shape_h b →
  hstack a b = Ok {| shape_h := shape_h a; shape_w := (shape_w a + shape_w b)%nat;
                     rows := zip_with app (rows a) (rows b) |}.
Proof. intros Hh. unfold hstack. by rewrite decide_True. Qed.

Lemma pixel_at_zip_with_app (a b : ndarray) (y x : nat) :
  wf_ndarray a → wf_ndarray b → shape_h a = shape_h b →
  (y < shape_h a)%nat →
  let s := mk_ndarray (shape_h a) (shape_w a + shape_w b) (zip_with app (rows a) (rows b)) in
  ((x < shape_w a)%nat → pixel_at s y x = pixel_at a y x)
  ∧ pixel_at s y (shape_w a + x) = pixel_at b y x.
Proof.
  intros [Hla Hwa] [Hlb Hwb] Hh Hy s. unfold pixel_at, s; simpl.
  rewrite lookup_zip_with.
  destruct (lookup_lt_is_Some_2 (rows a) y) as [ra Hra]; [lia|].
  destruct (lookup_lt_is_Some_2 (rows b) y) as [rb Hrb]; [lia|].
  rewrite Hra, Hrb. simpl.
  pose proof (Forall_lookup_1 _ _ _ _ Hwa Hra) as Lra. simpl in Lra.
  split.
  - intros Hx. apply lookup_app_l. lia.
  - rewrite lookup_app_r by lia. f_equal. lia.
Qed.

(** C2: for two well-formed frames of equal height and equal width,
    np.hstack returns a frame of twice the width and the same height whose
    left half is input A and whose right half is input B, as sub-arrays and
    pixel by pixel. *)
Theorem hstack_equal_dimensions (a b : ndarray) :
  wf_ndarray a → wf_ndarray b →
  shape_h a = shape_h b → shape_w a = shape_w b →
  ∃ s, hstack a b = Ok s
    ∧ wf_ndarray s
    ∧ shape_w s = (2 * shape_w a)%nat
    ∧ shape_h s = shape_h a
    ∧ columns 0 (shape_w a) s = rows a
    ∧ columns (shape_w a) (shape_w a) s = rows b
    ∧ ∀ y x, (y < shape_h a)%nat → (x < shape_w a)%nat →
        pixel_at s y x = pixel_at a y x ∧ pixel_at s y (shape_w a + x) = pixel_at b y x.
Proof.
  intros Ha Hb Hh Hw.
  eexists. split; [by apply hstack_ok|].
  pose proof Ha as [Hla Hwa]. pose proof Hb as [Hlb Hwb].
  assert (length (rows a) = length (rows b)) as Hlen by lia.
  destruct (wf_zip_with_app _ _ _ _ Hlen Hwa Hwb) as [Hl Hf].
  destruct (columns_zip_with_app _ _ _ _ Hlen Hwa Hwb) as [Hleft Hright].
  repeat split; simpl; try lia.
  - by rewrite Hw in Hf |- *.
  - exact Hleft.
  - rewrite <- Hw in Hright. exact Hright.
  - by apply (pixel_at_zip_with_app a b y x).
  - by apply (pixel_at_zip_with_app a b y x).
Qed.

Lemma hstack_equal_dimensions_witness :
  ∃ s, hstack frame_A frame_B = Ok s
    ∧ wf_ndarray s
    ∧ shape_w s = (2 * shape_w frame_A)%nat
    ∧ shape_h s = shape_h frame_A
    ∧ columns 0 (shape_w frame_A) s = rows frame_A
    ∧ columns (shape_w frame_A) (shape_w frame_A) s = rows frame_B
    ∧ ∀ y x, (y < shape_h frame_A)%nat → (x < shape_w frame_A)%nat →
        pixel_at s y x = pixel_at frame_A y x
        ∧ pixel_at s y (shape_w frame_A + x) = pixel_at frame_B y x.
Proof.
  apply (hstack_equal_dimensions frame_A frame_B).
  - split; [reflexivity | repeat constructor].
  - split; [reflexivity | repeat constructor].
  - reflexivity.
  - reflexivity.
Defined.

Example hstack_A_B :
  hstack frame_A frame_B
  = Ok {| shape_h := 2; shape_w := 4;
          rows := [[(1, 2, 3); (4, 5, 6); (21, 22, 23); (24, 25, 26)];
                   [(7, 8, 9); (10, 11, 12); (27, 28, 29); (30, 31, 32)]]%Z |}.
Proof. reflexivity. Qed.

(** C3, as the code has it: np.hstack raises ValueError, and returns no
    frame, exactly when the two frames differ in height. Frames of one
    height are concatenated whatever their widths, into a frame as wide as
    both together. *)
Theorem hstack_mismatch (a b : ndarray) :
  (shape_h a ≠ shape_h b → hstack a b = Raise ValueError)
  ∧ (shape_h a = shape_h b →
       ∃ s, hstack a b = Ok s
         ∧ shape_h s = shape_h a
         ∧ shape_w s = (shape_w a + shape_w b)%nat
         ∧ (wf_ndarray a → wf_ndarray b →
              wf_ndarray s
              ∧ columns 0 (shape_w a) s = rows a
              ∧ columns (shape_w a) (shape_w b) s = rows b)).
Proof.
  split.
  - intros Hh. unfold hstack. by rewrite decide_False.
  - intros Hh. eexists. split; [by apply hstack_ok|]. simpl.
    split; [done|]. split; [done|].
    intros [Hla Hwa] [Hlb Hwb].
    assert (length (rows a) = length (rows b)) as Hlen by lia.
    destruct (wf_zip_with_app _ _ _ _ Hlen Hwa Hwb) as [Hl Hf].
    destruct (columns_zip_with_app _ _ _ _ Hlen Hwa Hwb) as [Hleft Hright].
    repeat split; simpl; try done. lia.
Qed.

Lemma hstack_mismatch_witness :
  hstack frame_A frame_tall = Raise ValueError
  ∧ ∃ s, hstack frame_A frame_wide = Ok s
      ∧ shape_h s = 2%nat ∧ shape_w s = 5%nat.
Proof.
  split.
  - apply (proj1 (hstack_mismatch frame_A frame_tall)). simpl. lia.
  - destruct (proj2 (hstack_mismatch frame_A frame_wide) eq_refl) as (s & Hs & Hh & Hw & _).
    exists s. auto.
Defined.

(** C3 as stated fails: two frames of different widths (2 and 3) and one
    height are composed, without any error, into a frame of width 5. *)
Lemma hstack_width_mismatch_accepted :
  shape_w frame_A ≠ shape_w frame_wide
  ∧ hstack frame_A frame_wide
    = Ok {| shape_h := 2; shape_w := 5;
            rows := [[(1, 2, 3); (4, 5, 6); (41, 42, 43); (44, 45, 46); (47, 48, 49)];
                     [(7, 8, 9); (10, 11, 12); (51, 52, 53); (54, 55, 56); (57, 58, 59)]]%Z |}.
Proof. split; [simpl; lia | reflexivity]. Qed.

(** ** The recording controller *)

Ltac prog_unfold :=
  unfold VideoWriter, release, write, print, sleep, emit, modify, gets, lift,
    raise, ret, bind in *.

(** Starting a recording: what [toggle_recording] does when the flag is down. *)
Lemma toggle_start (E : Env) (w : World) :
  is_recording w = false →
  toggle_recording E w =
    match writer_ctor E (writers_made w) with
    | CtorRaises => (Raise (LibraryError "cv2.VideoWriter"), w)
    | outcome =>
        (Ok tt,
         set_trace
           (trace w ++ [EvWriterNew (writers_made w) (output_filename E (writers_made w))
                          framerate (1280, 480)%nat (bool_decide (outcome = CtorOpened));
                        EvPrint ("Started recording: " +:+ output_filename E (writers_made w))])
           (set_is_recording true
              (set_out (Some (writers_made w)) (set_writers_made (S (writers_made w)) w))))
    end.
Proof.
  intros Hrec. unfold toggle_recording. prog_unfold. rewrite Hrec. simpl.
  destruct (writer_ctor E (writers_made w)); simpl; try done;
    unfold set_trace; simpl; by rewrite <- app_assoc.
Qed.

(** Stopping a recording: what [toggle_recording] does when the flag is up. *)
Lemma toggle_stop (E : Env) (w : World) :
  is_recording w = true →
  toggle_recording E w =
    match out w with
    | Some h =>
        (Ok tt,
         set_trace (trace w ++ [EvWriterRelease h; EvPrint "Stopped recording"])
           (set_out None (set_is_recording false w)))
    | None => (Raise AttributeError, set_is_recording false w)
    end.
Proof.
  intros Hrec. unfold toggle_recording. prog_unfold. rewrite Hrec. simpl.
  destruct (out w); simpl; try done.
  unfold set_trace; simpl; by rewrite <- app_assoc.
Qed.

(** A call that returns changes the flag. *)
Lemma toggle_flips (E : Env) (w w' : World) :
  toggle_recording E w = (Ok tt, w') → is_recording w' = negb (is_recording w).
Proof.
  destruct (is_recording w) eqn:Hrec.
  - rewrite toggle_stop by done. destruct (out w); intros; by simplify_eq.
  - rewrite toggle_start by done.
    destruct (writer_ctor E (writers_made w)); intros; by simplify_eq.
Qed.

(** The stop flag is not the toggle's business. *)
Lemma toggle_keeps_stop (E : Env) (w w' : World) (r : result unit) :
  toggle_recording E w = (r, w') → stop_event w' = stop_event w.
Proof.
  destruct (is_recording w) eqn:Hrec.
  - rewrite toggle_stop by done. destruct (out w); intros; by simplify_eq.
  - rewrite toggle_start by done.
    destruct (writer_ctor E (writers_made w)); intros; by simplify_eq.
Qed.

(** C4, as the code has it: from Idle, [toggle_recording] enters Recording
    whenever cv2.VideoWriter returns an object, opened or not (the code never
    asks isOpened()); only when the constructor itself raises does the call
    fail, and then the world, and with it the Idle state, is unchanged. *)
Theorem toggle_from_idle (E : Env) (w : World) :
  Idle w →
  (writer_ctor E (writers_made w) = CtorRaises →
     ∃ e, toggle_recording E w = (Raise e, w))
  ∧ (∀ opened : bool, writer_ctor E (writers_made w) = (if opened then CtorOpened else CtorUnopened) →
       ∃ w', toggle_recording E w = (Ok tt, w')
         ∧ Recording w' (writers_made w)
         ∧ EvWriterNew (writers_made w) (output_filename E (writers_made w))
             framerate (1280, 480)%nat opened ∈ trace w').
Proof.
  intros [Hrec Hout]. split.
  - intros Hctor. eexists. rewrite toggle_start by done. by rewrite Hctor.
  - intros opened Hctor. rewrite toggle_start by done. rewrite Hctor.
    destruct opened; eexists; (split; [reflexivity|]); (split; [done|]);
      simpl; set_solver.
Qed.

Lemma toggle_from_idle_witness :
  ∃ w', toggle_recording env_sink_unopened boot = (Ok tt, w')
    ∧ Recording w' 0
    ∧ EvWriterNew 0 "recordings/stereo_output_20240101-120000.mp4" 30 (1280, 480)%nat false
        ∈ trace w'.
Proof.
  exact (proj2 (toggle_from_idle env_sink_unopened boot (conj eq_refl eq_refl)) false eq_refl).
Defined.

(** C4 as stated fails: the writer does not open, and the toggle still
    succeeds and leaves the controller in Recording, holding the writer. *)
Lemma toggle_enters_recording_on_failed_open :
  writer_ctor env_sink_unopened 0 = CtorUnopened
  ∧ Idle boot
  ∧ toggle_recording env_sink_unopened boot
    = (Ok tt,
       set_trace
         [EvWriterNew 0 "recordings/stereo_output_20240101-120000.mp4" 30 (1280, 480)%nat false;
          EvPrint "Started recording: recordings/stereo_output_20240101-120000.mp4"]
         (set_is_recording true (set_out (Some 0%nat) (set_writers_made 1 boot)))).
Proof. split; [reflexivity|]. split; [by split | reflexivity]. Qed.

(** C6: from Idle, two toggles in a row (with a video writer that can be
    constructed) both return, pass through Recording and end in Idle; the
    pair opens exactly one sink and closes exactly one, so the open count
    and the close count stay equal if they were. *)
Theorem toggle_twice_from_idle (E : Env) (w : World) :
  Idle w →
  writer_ctor E (writers_made w) ≠ CtorRaises →
  ∃ w1 w2,
    toggle_recording E w = (Ok tt, w1)
    ∧ toggle_recording E w1 = (Ok tt, w2)
    ∧ Recording w1 (writers_made w)
    ∧ Idle w2
    ∧ sinks_opened (trace w2) = S (sinks_opened (trace w))
    ∧ sinks_closed (trace w2) = S (sinks_closed (trace w))
    ∧ (sinks_opened (trace w) = sinks_closed (trace w) →
       sinks_opened (trace w2) = sinks_closed (trace w2)).
Proof.
  intros [Hrec Hout] Hctor.
  pose proof (toggle_start E w Hrec) as H1.
  destruct (writer_ctor E (writers_made w)) eqn:Hc; [| |done];
    (eexists; eexists; split; [exact H1|]);
    (split; [by rewrite toggle_stop|]);
    (split; [done|]); (split; [done|]);
    unfold sinks_opened, sinks_closed; simpl;
    rewrite !List.filter_app, !length_app; simpl; lia.
Qed.

Lemma toggle_twice_from_idle_witness :
  ∃ w1 w2,
    toggle_recording env_fine boot = (Ok tt, w1)
    ∧ toggle_recording env_fine w1 = (Ok tt, w2)
    ∧ Recording w1 (writers_made boot)
    ∧ Idle w2
    ∧ sinks_opened (trace w2) = S (sinks_opened (trace boot))
    ∧ sinks_closed (trace w2) = S (sinks_closed (trace boot))
    ∧ (sinks_opened (trace boot) = sinks_closed (trace boot) →
       sinks_opened (trace w2) = sinks_closed (trace w2)).
Proof.
  apply (toggle_twice_from_idle env_fine boot).
  - split; reflexivity.
  - simpl. discriminate.
Defined.

(** *** The flag and the sink go together *)

Lemma session_inv_toggle (E : Env) (w w' : World) (r : result unit) :
  session_inv w → toggle_recording E w = (r, w') → session_inv w'.
Proof.
  intros (Hflag & Hheld & Hknown). unfold flag_matches_sink in Hflag.
  destruct (is_recording w) eqn:Hrec.
  - rewrite toggle_stop by done.
    destruct (out w) as [h|] eqn:Hout; intros ?; simplify_eq.
    destruct (Hheld h Hout) as [Hlt Hnot].
    split; [done|]. split; [intros h' ?; simplify_eq/=|].
    intros h' Hin. simpl in *.
    rewrite !elem_of_app, !elem_of_cons, elem_of_nil in Hin.
    destruct Hin as [Hin|[Hin|[Hin|[]]]]; [by apply Hknown|by simplify_eq|done].
  - rewrite toggle_start by done.
    assert (EvWriterRelease (writers_made w) ∉ trace w) as Hfresh.
    { intros Hin. apply Hknown in Hin. lia. }
    assert (∀ h' ev1 ev2, is_writer_release ev1 = false → is_writer_release ev2 = false →
             EvWriterRelease h' ∈ trace w ++ [ev1; ev2] → EvWriterRelease h' ∈ trace w) as Hold.
    { intros h' ev1 ev2 H1 H2. rewrite !elem_of_app, !elem_of_cons, elem_of_nil.
      intros [Hin|[Hin|[Hin|[]]]]; subst; simpl in *; done. }
    destruct (writer_ctor E (writers_made w)); intros ?; simplify_eq;
      [| |split; [unfold flag_matches_sink; by rewrite Hrec | done]].
    all: split; [done|]; split.
    all: try (intros h' ?; simplify_eq/=; split; [lia|]; intros Hin; by apply Hold in Hin).
    all: intros h' Hin; simpl in *; apply Hold in Hin; [|done..]; apply Hknown in Hin; lia.
Qed.

(** A pass of the capture loop leaves the controller alone: it changes
    neither the flag nor [out], constructs no writer and releases none. *)

Lemma same_session_refl w : same_session w w.
Proof. by repeat split. Qed.

Lemma same_session_trans w1 w2 w3 :
  same_session w1 w2 → same_session w2 w3 → same_session w1 w3.
Proof.
  intros (? & ? & ? & ? & H12) (? & ? & ? & ? & H23).
  repeat split; try congruence. intros h Hin. by apply H12, H23.
Qed.

Lemma keeps_ret {A} (a : A) : keeps_session (ret a).
Proof. intros w r w' [= <- <-]. apply same_session_refl. Qed.

Lemma keeps_raise {A} (e : exn) : keeps_session (raise (A:=A) e).
Proof. intros w r w' [= <- <-]. apply same_session_refl. Qed.

Lemma keeps_lift {A} (x : result A) : keeps_session (lift x).
Proof. intros w r w' [= <- <-]. apply same_session_refl. Qed.

Lemma keeps_gets {A} (f : World → A) : keeps_session (gets f).
Proof. intros w r w' [= <- <-]. apply same_session_refl. Qed.

Lemma keeps_bind {A B} (m : Prog A) (k : A → Prog B) :
  keeps_session m → (∀ a, keeps_session (k a)) → keeps_session (bind m k).
Proof.
  intros Hm Hk w r w'. unfold bind.
  destruct (m w) as [[a| |] w1] eqn:Hrun; intros Hres.
  - eapply same_session_trans; [by eapply Hm | by eapply Hk].
  - simplify_eq. by eapply Hm.
  - simplify_eq. by eapply Hm.
Qed.

Lemma keeps_emit (e : Event) : is_writer_release e = false → keeps_session (emit e).
Proof.
  intros He w r w' [= <- <-]. repeat split; try done. simpl.
  intros h. rewrite elem_of_app, elem_of_cons, elem_of_nil.
  intros [Hin|[Hin|[]]]; [done|]. by subst e.
Qed.

Lemma keeps_set_captures (n : nat) : keeps_session (modify (set_captures n)).
Proof. intros w r w' [= <- <-]. by repeat split. Qed.

Ltac session_step :=
  match goal with
  | |- keeps_session (bind _ _) => apply keeps_bind; [|intros ?]
  | |- keeps_session (ret _) => apply keeps_ret
  | |- keeps_session (raise _) => apply keeps_raise
  | |- keeps_session (lift _) => apply keeps_lift
  | |- keeps_session (gets _) => apply keeps_gets
  | |- keeps_session (modify (set_captures _)) => apply keeps_set_captures
  | |- keeps_session (emit _) => apply keeps_emit; reflexivity
  | |- keeps_session (if ?b then _ else _) => destruct b
  | |- keeps_session (match ?x with _ => _ end) => destruct x
  end.

Lemma keeps_capture_stereo (E : Env) : keeps_session (capture_stereo E).
Proof. unfold capture_stereo, capture_array. repeat session_step. Qed.

Lemma keeps_loop_body (E : Env) : keeps_session (loop_body E).
Proof.
  unfold loop_body, os_write, write.
  apply keeps_bind; [apply keeps_capture_stereo|]. intros [frame1 frame2].
  repeat session_step.
Qed.

Lemma session_inv_loop_body (E : Env) (w w' : World) (r : result unit) :
  session_inv w → loop_body E w = (r, w') → session_inv w'.
Proof.
  intros (Hflag & Hheld & Hknown) Hrun.
  destruct (keeps_loop_body E w r w' Hrun) as (Hrec & Hout & Hmade & _ & Htrace).
  unfold session_inv, flag_matches_sink, held_sink_open, releases_known.
  rewrite Hrec, Hout, Hmade. split; [done|]. split.
  - intros h Hh. destruct (Hheld h Hh) as [Hlt Hnot]. split; [done|].
    intros Hin. by apply Hnot, Htrace.
  - intros h Hin. by apply Hknown, Htrace.
Qed.

Lemma session_inv_init (w : World) : releases_known w → session_inv (init_globals w).
Proof.
  intros Hknown. split; [done|]. split; [intros h ?; simplify_eq/=|]. exact Hknown.
Qed.

(** C9: after the globals are initialised, and after every call of
    [toggle_recording] from there on (with passes of the capture loop in
    between), the recording flag is up exactly when [out] holds a video
    writer, and that writer was constructed and has not been released. So the
    guard of the loop, is_recording and out is not None, is the flag itself. *)
Theorem flag_sink_invariant (E : Env) (w0 w : World) :
  releases_known w0 →
  reachable E (init_globals w0) w →
  is_recording w = bool_decide (out w ≠ None)
  ∧ (is_recording w = true ↔
       ∃ h, out w = Some h ∧ (h < writers_made w)%nat ∧ EvWriterRelease h ∉ trace w)
  ∧ is_recording w && bool_decide (out w ≠ None) = is_recording w.
Proof.
  intros Hknown Hreach.
  assert (session_inv w) as (Hflag & Hheld & _).
  { induction Hreach as [|w w' r _ IH Hrun|w w' r _ IH Hrun].
    - by apply session_inv_init.
    - by apply (session_inv_toggle E w w' r).
    - by apply (session_inv_loop_body E w w' r). }
  unfold flag_matches_sink in Hflag. split; [done|]. split.
  - rewrite Hflag. split.
    + intros Hsome%bool_decide_eq_true. destruct (out w) as [h|] eqn:Hout; [|done].
      exists h. destruct (Hheld h Hout). by repeat split.
    + intros (h & Hout & _). rewrite Hout. by apply bool_decide_eq_true.
  - rewrite Hflag. by destruct (bool_decide _).
Qed.

Lemma flag_sink_invariant_witness :
  let w := (toggle_recording env_fine (init_globals boot)).2 in
  is_recording w = bool_decide (out w ≠ None)
  ∧ (is_recording w = true ↔
       ∃ h, out w = Some h ∧ (h < writers_made w)%nat ∧ EvWriterRelease h ∉ trace w)
  ∧ is_recording w && bool_decide (out w ≠ None) = is_recording w.
Proof.
  apply (flag_sink_invariant env_fine boot).
  - intros h Hin. simpl in Hin. by apply elem_of_nil in Hin.
  - apply (reachable_toggle _ _ (init_globals boot) _
             (toggle_recording env_fine (init_globals boot)).1);
      [apply reachable_start | apply surjective_pairing].
Defined.

(** ** The keyboard *)

Lemma lower_r_iff (c : ascii) :
  lower (String c EmptyString) = "r" ↔ c = "r"%char ∨ c = "R"%char.
Proof.
  destruct c as [[] [] [] [] [] [] [] []]; vm_compute; split; intros H;
    try discriminate H; try (destruct H as [H|H]; discriminate H); auto.
Qed.

Lemma lower_q_iff (c : ascii) :
  lower (String c EmptyString) = "q" ↔ c = "q"%char ∨ c = "Q"%char.
Proof.
  destruct c as [[] [] [] [] [] [] [] []]; vm_compute; split; intros H;
    try discriminate H; try (destruct H as [H|H]; discriminate H); auto.
Qed.

Lemma keyboard_key_r (E : Env) (read : string) (w : World) :
  lower read = "r" →
  keyboard_key E read w = bind (toggle_recording E) (λ _, ret Continue) w.
Proof. intros Hkey. unfold keyboard_key. by rewrite decide_True. Qed.

Lemma keyboard_key_q (E : Env) (read : string) (w : World) :
  lower read = "q" →
  keyboard_key E read w
  = (Ok Break, set_stop_event true (set_trace (trace w ++ [EvPrint "Quit command received"]) w)).
Proof.
  intros Hkey. unfold keyboard_key.
  rewrite decide_False by (rewrite Hkey; discriminate).
  by rewrite decide_True.
Qed.

Lemma keyboard_key_other (E : Env) (read : string) (w : World) :
  lower read ≠ "r" → lower read ≠ "q" → keyboard_key E read w = (Ok Continue, w).
Proof. intros Hr Hq. unfold keyboard_key. by rewrite !decide_False. Qed.

(** C10: the keyboard handler has an answer for every character c. It
    calls [toggle_recording] (and a call that returns flips the flag) exactly
    when lower(c) is r, that is for r and R; it sets the stop flag and leaves
    its loop exactly when lower(c) is q, that is for q and Q; for every
    other character the world, flags included, is what it was. *)
Theorem keyboard_key_total (E : Env) (c : ascii) (w : World) :
  let read := String c EmptyString in
  (lower read = "r" ↔ c = "r"%char ∨ c = "R"%char)
  ∧ (lower read = "q" ↔ c = "q"%char ∨ c = "Q"%char)
  ∧ (lower read = "r" →
       keyboard_key E read w = bind (toggle_recording E) (λ _, ret Continue) w)
  ∧ (lower read = "q" →
       ∃ w', keyboard_key E read w = (Ok Break, w')
         ∧ stop_event w' = true ∧ is_recording w' = is_recording w ∧ out w' = out w)
  ∧ (lower read ≠ "r" → lower read ≠ "q" → keyboard_key E read w = (Ok Continue, w))
  ∧ ∀ r w', keyboard_key E read w = (r, w') →
      (is_recording w' ≠ is_recording w → lower read = "r")
      ∧ (lower read = "r" → r = Ok Continue → is_recording w' = negb (is_recording w))
      ∧ (stop_event w = false → stop_event w' = true ↔ lower read = "q").
Proof.
  intros read.
  split; [apply lower_r_iff|]. split; [apply lower_q_iff|].
  split; [apply keyboard_key_r|].
  split; [intros Hq; rewrite keyboard_key_q by done; by eexists|].
  split; [apply keyboard_key_other|].
  intros r w'.
  destruct (decide (lower read = "r")) as [Hr|Hr];
    [|destruct (decide (lower read = "q")) as [Hq|Hq]].
  - rewrite keyboard_key_r by done. unfold bind, ret.
    destruct (toggle_recording E w) as [[[]| |] w1] eqn:Hrun; intros [= <- <-].
    + pose proof (toggle_flips _ _ _ Hrun). pose proof (toggle_keeps_stop _ _ _ _ Hrun) as Hs.
      repeat split; try done. all: rewrite Hs, Hr; intros; congruence.
    + pose proof (toggle_keeps_stop _ _ _ _ Hrun) as Hs.
      repeat split; try done. all: rewrite Hs, Hr; intros; congruence.
    + pose proof (toggle_keeps_stop _ _ _ _ Hrun) as Hs.
      repeat split; try done. all: rewrite Hs, Hr; intros; congruence.
  - rewrite keyboard_key_q by done. intros [= <- <-]. simpl.
    repeat split; try done.
  - rewrite keyboard_key_other by done. intros [= <- <-].
    repeat split; try done. intros ?; congruence.
Qed.

Example keyboard_key_capital_R :
  (keyboard_key env_fine "R" (init_globals boot)).1 = Ok Continue
  ∧ is_recording (keyboard_key env_fine "R" (init_globals boot)).2 = true.
Proof. split; reflexivity. Qed.

Example keyboard_key_capital_Q :
  keyboard_key env_fine "Q" (init_globals boot)
  = (Ok Break, set_stop_event true (set_trace [EvPrint "Quit command received"] boot)).
Proof. reflexivity. Qed.

Example keyboard_key_end_of_input :
  keyboard_key env_fine "" (init_globals boot) = (Ok Continue, init_globals boot).
Proof. reflexivity. Qed.

(** ** The capture loop: what each sink gets *)

Lemma pixel_at_paint (c : pixel) (img : ndarray) (x0 y0 y x : nat) :
  pixel_at (paint c img (x0, y0)) y x
  = if decide (x = x0 ∧ y = y0) then (λ _, c) <$> pixel_at img y x else pixel_at img y x.
Proof.
  unfold pixel_at, paint. simpl.
  destruct (decide (x = x0 ∧ y = y0)) as [[-> ->]|Hne].
  - rewrite list_lookup_alter_eq. destruct (rows img !! y0) as [r|]; simpl; [|done].
    destruct (decide (x0 < length r)%nat) as [Hlt|Hge].
    + rewrite list_lookup_insert_eq by done.
      by destruct (lookup_lt_is_Some_2 r x0 Hlt) as [p ->].
    + rewrite list_insert_ge by lia. by rewrite (lookup_ge_None_2 r x0) by lia.
  - destruct (decide (y = y0)) as [->|Hy].
    + rewrite list_lookup_alter_eq. destruct (rows img !! y0) as [r|]; simpl; [|done].
      apply list_lookup_insert_ne. intros ->. tauto.
    + by rewrite list_lookup_alter_ne.
Qed.

Lemma pixel_at_cvtColor (img : ndarray) (y x : nat) :
  pixel_at (cvtColor img) y x = swap_rb <$> pixel_at img y x.
Proof.
  unfold pixel_at, cvtColor. simpl. rewrite list_lookup_fmap.
  destruct (rows img !! y) as [r|]; simpl; [|done]. by rewrite list_lookup_fmap.
Qed.

Lemma swap_rb_involutive (p : pixel) : swap_rb (swap_rb p) = p.
Proof. by destruct p as [[c0 c1] c2]. Qed.

Lemma marked_cvtColor (mark : list (nat * nat)) (color : pixel) (img : ndarray) :
  marked mark (swap_rb color) (cvtColor img) ↔ marked mark color img.
Proof.
  unfold marked. split; intros H x y Hin Hsome.
  - specialize (H x y Hin). rewrite pixel_at_cvtColor in H.
    destruct (pixel_at img y x) as [p|] eqn:Hp; [|by destruct Hsome].
    simpl in H. specialize (H (mk_is_Some _ _ eq_refl)). f_equal.
    injection H as H. by rewrite <- (swap_rb_involutive p), H, swap_rb_involutive.
  - rewrite pixel_at_cvtColor in Hsome |- *.
    destruct (pixel_at img y x) as [p|] eqn:Hp; [|by destruct Hsome].
    specialize (H x y Hin). rewrite Hp in H. specialize (H (mk_is_Some _ _ eq_refl)).
    by simplify_eq.
Qed.

Lemma marked_foldl_paint (mark : list (nat * nat)) (color : pixel) (img : ndarray) :
  marked mark color (foldl (paint color) img mark).
Proof.
  induction mark as [|[x0 y0] mark IH] using rev_ind; [by intros x y Hin; apply elem_of_nil in Hin|].
  rewrite foldl_snoc. intros x y Hin Hsome.
  rewrite pixel_at_paint in Hsome |- *.
  destruct (decide (x = x0 ∧ y = y0)) as [[-> ->]|Hne].
  - destruct (pixel_at _ y0 x0); [done|by destruct Hsome].
  - apply IH; [|done].
    apply elem_of_app in Hin as [Hin|Hin]; [done|].
    rewrite elem_of_cons, elem_of_nil in Hin. destruct Hin as [Hin|[]]. simplify_eq. tauto.
Qed.

Lemma putText_marked (E : Env) (img : ndarray) (text : string) (org : nat * nat)
    (scale thickness : nat) (color : pixel) :
  marked (raster E text org scale thickness) color (putText E img text org scale color thickness).
Proof. apply marked_foldl_paint. Qed.

(** C1, as the code has it: in a pass of the loop with the recording flag
    up, the composed frame goes to the video writer first, as composed, and
    the REC text is put on it only afterwards; the frame that then goes to
    the display pipe carries the text. The writer's frame carries it only
    if the composed frame already had those pixels in that colour. *)
Theorem loop_body_recording (E : Env) (w : World) (h a b : nat) (f1 f2 s : ndarray) :
  is_recording w = true → out w = Some h →
  camera1 w = Some a → camera2 w = Some b →
  sensor E a (devices w !! a) (captures w) = Ok f1 →
  sensor E b (devices w !! b) (S (captures w)) = Ok f2 →
  hstack f1 f2 = Ok s →
  pipe_accepts E (tick w) = true →
  let mark := raster E "REC" (50, 50)%nat 1 2 in
  let annotated := putText E s "REC" (50, 50)%nat 1 (0, 0, 255)%Z 2 in
  ∃ w', loop_body E w = (Ok tt, w')
    ∧ trace w' = trace w ++ [EvCapture a; EvCapture b;
                             EvWriterWrite h (cvtColor s);
                             EvPipeWrite (tobytes (cvtColor annotated))]
    ∧ marked mark (255, 0, 0)%Z (cvtColor annotated)
    ∧ (marked mark (255, 0, 0)%Z (cvtColor s) ↔ marked mark (0, 0, 255)%Z s).
Proof.
  intros Hrec Hout Hc1 Hc2 Hf1 Hf2 Hs Hpipe mark annotated.
  unfold loop_body, capture_stereo, capture_array, os_write, write. prog_unfold.
  rewrite Hc1, Hc2. simpl. rewrite Hf1. simpl. rewrite Hf2. simpl. rewrite Hs, Hrec, Hout. simpl.
  rewrite Hpipe. eexists. split; [reflexivity|]. simpl.
  rewrite Hrec. split; [by rewrite <- !app_assoc|].
  split.
  - apply (marked_cvtColor mark (0, 0, 255)%Z). apply putText_marked.
  - apply (marked_cvtColor mark (0, 0, 255)%Z).
Qed.

Lemma loop_body_recording_witness :
  ∃ w', loop_body env_fine world_recording = (Ok tt, w')
    ∧ trace w' = trace world_recording
                 ++ [EvCapture 0; EvCapture 1;
                     EvWriterWrite 0 (cvtColor black_pair);
                     EvPipeWrite (tobytes (cvtColor
                       (putText env_fine black_pair "REC" (50, 50)%nat 1 (0, 0, 255)%Z 2)))]
    ∧ marked (raster env_fine "REC" (50, 50)%nat 1 2) (255, 0, 0)%Z
        (cvtColor (putText env_fine black_pair "REC" (50, 50)%nat 1 (0, 0, 255)%Z 2))
    ∧ (marked (raster env_fine "REC" (50, 50)%nat 1 2) (255, 0, 0)%Z (cvtColor black_pair)
       ↔ marked (raster env_fine "REC" (50, 50)%nat 1 2) (0, 0, 255)%Z black_pair).
Proof.
  apply (loop_body_recording env_fine world_recording 0 0 1 black_frame black_frame black_pair);
    vm_compute; reflexivity.
Defined.

(** C1 as stated fails: with a recording running and two black frames
    captured, the frame written to the video writer is black under the
    text, while the frame written to the pipe has the text. *)
Lemma recorded_frame_unmarked :
  let mark := raster env_fine "REC" (50, 50)%nat 1 2 in
  let recorded := cvtColor black_pair in
  let shown := cvtColor (putText env_fine black_pair "REC" (50, 50)%nat 1 (0, 0, 255)%Z 2) in
  is_recording world_recording = true
  ∧ out world_recording = Some 0%nat
  ∧ (loop_body env_fine world_recording).1 = Ok tt
  ∧ trace (loop_body env_fine world_recording).2
    = trace world_recording
      ++ [EvCapture 0; EvCapture 1; EvWriterWrite 0 recorded; EvPipeWrite (tobytes shown)]
  ∧ (50, 50)%nat ∈ mark
  ∧ pixel_at recorded 50 50 = Some (0, 0, 0)%Z
  ∧ pixel_at shown 50 50 = Some (255, 0, 0)%Z
  ∧ ¬ marked mark (255, 0, 0)%Z recorded.
Proof.
  intros mark recorded shown.
  assert ((50, 50)%nat ∈ mark) as Hin by (apply elem_of_cons; by left).
  assert (pixel_at recorded 50 50 = Some (0, 0, 0)%Z) as Hpix by (vm_compute; reflexivity).
  split; [vm_compute; reflexivity|].
  split; [vm_compute; reflexivity|].
  split; [vm_compute; reflexivity|].
  split; [vm_compute; reflexivity|].
  split; [exact Hin|].
  split; [exact Hpix|].
  split; [vm_compute; reflexivity|].
  intros Hmarked. specialize (Hmarked 50%nat 50%nat Hin).
  rewrite Hpix in Hmarked. specialize (Hmarked (mk_is_Some _ _ eq_refl)). discriminate.
Qed.

(** ** The cameras *)

Ltac camera_unfold :=
  unfold __init__, init_cameras, Picamera2, configure, start, stop, set_device, try_except;
  prog_unfold.

Lemma filter_startup_nil (q : Event → bool) (evs : list Event) :
  (∀ e, is_startup_event e = true → q e = false) →
  forallb is_startup_event evs = true → List.filter q evs = [].
Proof.
  intros Hq. induction evs as [|e evs IH]; [done|]. simpl.
  intros [He Hevs]%andb_prop. rewrite (Hq e He). by apply IH.
Qed.

Lemma init_camera1_fails (E : Env) (w : World) (step : CamStep) :
  camera_fault E 0 = Some step →
  ∃ e w' evs, __init__ E w = (Raise e, w')
    ∧ trace w' = trace w ++ evs
    ∧ last evs = Some (EvPrint ("Error initializing cameras: " +:+ str_exn e))
    ∧ forallb is_startup_event evs = true.
Proof.
  intros H0. camera_unfold.
  destruct step; repeat (progress (rewrite ?H0; simpl));
    do 3 eexists; (split; [reflexivity|]); simpl;
    rewrite <- ?app_assoc; simpl; (split; [reflexivity|]); by split.
Qed.

Lemma init_camera2_fails (E : Env) (w : World) (step : CamStep) :
  camera_fault E 0 = None → camera_fault E 1 = Some step →
  ∃ e w' evs, __init__ E w = (Raise e, w')
    ∧ trace w' = trace w ++ evs
    ∧ last evs = Some (EvPrint ("Error initializing cameras: " +:+ str_exn e))
    ∧ forallb is_startup_event evs = true
    ∧ camera1 w' = Some 0%nat
    ∧ devices w' !! 0%nat = Some CamStarted.
Proof.
  intros H0 H1. camera_unfold.
  destruct step; repeat (progress (rewrite ?H0, ?H1; simpl));
    do 3 eexists; (split; [reflexivity|]); simpl;
    rewrite <- ?app_assoc; simpl; (split; [reflexivity|]);
    (split; [reflexivity|]); (split; [reflexivity|]); (split; [reflexivity|]);
    by simplify_map_eq.
Qed.

Lemma init_succeeds (E : Env) (w : World) :
  camera_fault E 0 = None → camera_fault E 1 = None →
  ∃ w' evs, __init__ E w = (Ok tt, w')
    ∧ trace w' = trace w ++ evs
    ∧ forallb is_startup_event evs = true
    ∧ camera1 w' = Some 0%nat ∧ camera2 w' = Some 1%nat
    ∧ devices w' !! 0%nat = Some CamStarted
    ∧ devices w' !! 1%nat = Some CamStarted
    ∧ tick w' = tick w.
Proof.
  intros H0 H1. camera_unfold. repeat (progress (rewrite ?H0, ?H1; simpl)).
  do 2 eexists. split; [reflexivity|]. simpl.
  rewrite <- ?app_assoc; simpl. split; [reflexivity|]. split; [reflexivity|].
  by simplify_map_eq.
Qed.

Lemma init_fails (E : Env) (w : World) :
  camera_fault E 0 ≠ None ∨ camera_fault E 1 ≠ None →
  ∃ e w' evs, __init__ E w = (Raise e, w')
    ∧ trace w' = trace w ++ evs
    ∧ forallb is_startup_event evs = true.
Proof.
  intros Hfault.
  destruct (camera_fault E 0) as [step0|] eqn:H0.
  - destruct (init_camera1_fails E w step0 H0) as (e & w' & evs & ? & ? & ? & ?).
    by exists e, w', evs.
  - destruct (camera_fault E 1) as [step1|] eqn:H1; [|by destruct Hfault].
    destruct (init_camera2_fails E w step1 H0 H1) as (e & w' & evs & ? & ? & ? & ? & ?).
    by exists e, w', evs.
Qed.

(** C7, as the code has it: when bringing up either camera fails, the
    constructor reports the error and raises the same exception again, and
    that is all it does: no camera is stopped. If the failure is on the
    second camera, the first one is left held by the object and running. *)
Theorem init_failure_not_released (E : Env) (w : World) :
  (∀ step, camera_fault E 0 = Some step →
     ∃ e w' evs, __init__ E w = (Raise e, w')
       ∧ trace w' = trace w ++ evs
       ∧ last evs = Some (EvPrint ("Error initializing cameras: " +:+ str_exn e))
       ∧ List.filter is_camera_stop evs = [])
  ∧ (camera_fault E 0 = None → ∀ step, camera_fault E 1 = Some step →
     ∃ e w' evs, __init__ E w = (Raise e, w')
       ∧ trace w' = trace w ++ evs
       ∧ last evs = Some (EvPrint ("Error initializing cameras: " +:+ str_exn e))
       ∧ List.filter is_camera_stop evs = []
       ∧ camera1 w' = Some 0%nat
       ∧ devices w' !! 0%nat = Some CamStarted).
Proof.
  assert (∀ e, is_startup_event e = true → is_camera_stop e = false) as Hquiet
    by (by intros []).
  split.
  - intros step H0.
    destruct (init_camera1_fails E w step H0) as (e & w' & evs & Hrun & Htr & Hlast & Hev).
    exists e, w', evs. repeat split; try done. by apply filter_startup_nil.
  - intros H0 step H1.
    destruct (init_camera2_fails E w step H0 H1)
      as (e & w' & evs & Hrun & Htr & Hlast & Hev & Hc1 & Hdev).
    exists e, w', evs. repeat split; try done. by apply filter_startup_nil.
Qed.


Lemma init_failure_not_released_witness :
  ∃ e w' evs, __init__ env_camera2_missing boot = (Raise e, w')
    ∧ trace w' = trace boot ++ evs
    ∧ last evs = Some (EvPrint ("Error initializing cameras: " +:+ str_exn e))
    ∧ List.filter is_camera_stop evs = []
    ∧ camera1 w' = Some 0%nat
    ∧ devices w' !! 0%nat = Some CamStarted.
Proof.
  apply (proj2 (init_failure_not_released env_camera2_missing boot)) with (step := StepNew);
    reflexivity.
Defined.

(** C7 as stated fails: the second camera cannot be opened, the exception
    goes up, and the first camera is still running, in the constructor and
    when [main] has returned. *)
Lemma camera1_left_running :
  camera_fault env_camera2_missing 1 = Some StepNew
  ∧ (__init__ env_camera2_missing boot).1 = Raise (LibraryError "Picamera2")
  ∧ devices (__init__ env_camera2_missing boot).2 !! 0%nat = Some CamStarted
  ∧ List.filter is_camera_stop (trace (__init__ env_camera2_missing boot).2) = []
  ∧ devices (run env_camera2_missing 3).2 !! 0%nat = Some CamStarted
  ∧ List.filter is_camera_stop (trace (run env_camera2_missing 3).2) = [].
Proof.
  split; [reflexivity|].
  split; [vm_compute; reflexivity|].
  split; [vm_compute; reflexivity|].
  split; [vm_compute; reflexivity|].
  split; [vm_compute; reflexivity|].
  vm_compute; reflexivity.
Qed.

Ltac capture_unfold :=
  unfold capture_stereo, capture_array, close, stop, set_device; prog_unfold.

(** C8, as the code has it: [capture_stereo] raises RuntimeError exactly
    when one of the two camera fields is None; with both set it calls
    capture_array on each camera and returns the pair when both deliver.
    [close] stops the cameras and leaves both fields set, so the guard does
    not fire after it: what a capture then gives is up to the driver. *)
Theorem capture_stereo_guard (E : Env) (w : World) :
  (camera1 w = None ∨ camera2 w = None →
     capture_stereo E w = (Raise (RuntimeError "Cameras not properly initialized"), w))
  ∧ (∀ a b, camera1 w = Some a → camera2 w = Some b →
       capture_stereo E w
       = bind (capture_array E a)
           (λ frame1, bind (capture_array E b) (λ frame2, ret (frame1, frame2))) w
       ∧ ∀ f1 f2,
           sensor E a (devices w !! a) (captures w) = Ok f1 →
           sensor E b (devices w !! b) (S (captures w)) = Ok f2 →
           ∃ w', capture_stereo E w = (Ok (f1, f2), w')
             ∧ trace w' = trace w ++ [EvCapture a; EvCapture b])
  ∧ (∃ w', close w = (Ok tt, w')
       ∧ camera1 w' = camera1 w ∧ camera2 w' = camera2 w
       ∧ (∀ a, camera1 w = Some a → devices w' !! a = Some CamStopped)
       ∧ (∀ b, camera2 w = Some b → devices w' !! b = Some CamStopped)).
Proof.
  split; [|split].
  - intros Hnone. capture_unfold.
    destruct (camera1 w) as [a|], (camera2 w) as [b|]; try done; by destruct Hnone.
  - intros a b Ha Hb. split.
    + capture_unfold. by rewrite Ha, Hb.
    + intros f1 f2 Hf1 Hf2. capture_unfold. rewrite Ha, Hb. simpl.
      rewrite Hf1. simpl. rewrite Hf2. simpl.
      eexists. split; [reflexivity|]. simpl. by rewrite <- app_assoc.
  - capture_unfold.
    destruct (camera1 w) as [a|] eqn:Ha, (camera2 w) as [b|] eqn:Hb;
      repeat (progress (simpl; rewrite ?Ha, ?Hb));
      eexists; (split; [reflexivity|]); simpl;
      (split; [done|]); (split; [done|]); split; intros c [= <-];
      rewrite ?lookup_insert; repeat case_decide; congruence.
Qed.

Lemma capture_stereo_guard_witness :
  capture_stereo env_fine boot
  = (Raise (RuntimeError "Cameras not properly initialized"), boot)
  ∧ ∃ w', capture_stereo env_fine (__init__ env_fine boot).2
          = (Ok (black_frame, black_frame), w')
      ∧ trace w' = trace (__init__ env_fine boot).2 ++ [EvCapture 0; EvCapture 1].
Proof.
  split.
  - apply (proj1 (capture_stereo_guard env_fine boot)). left. reflexivity.
  - apply (proj1 (proj2 (capture_stereo_guard env_fine (__init__ env_fine boot).2)) 0%nat 1%nat);
      vm_compute; reflexivity.
Defined.

(** C8 as stated fails: after [close], with a driver that still hands out
    frames, [capture_stereo] returns a pair of frames and raises nothing. *)
Lemma capture_after_close_returns :
  let opened := (__init__ env_lenient boot).2 in
  let closed := (close opened).2 in
  (__init__ env_lenient boot).1 = Ok tt
  ∧ (close opened).1 = Ok tt
  ∧ devices closed !! 0%nat = Some CamStopped
  ∧ devices closed !! 1%nat = Some CamStopped
  ∧ (capture_stereo env_lenient closed).1 = Ok (black_frame, black_frame).
Proof.
  intros opened closed.
  split; [vm_compute; reflexivity|].
  split; [vm_compute; reflexivity|].
  split; [vm_compute; reflexivity|].
  split; [vm_compute; reflexivity|].
  vm_compute; reflexivity.
Qed.

(** ** main and the exit code *)

Lemma bind_Ok {A B} (m : Prog A) (k : A → Prog B) (w w1 : World) (a : A) :
  m w = (Ok a, w1) → bind m k w = k a w1.
Proof. intros Hrun. unfold bind. by rewrite Hrun. Qed.

Lemma bind_Raise {A B} (m : Prog A) (k : A → Prog B) (w w1 : World) (e : exn) :
  m w = (Raise e, w1) → bind m k w = (Raise e, w1).
Proof. intros Hrun. unfold bind. by rewrite Hrun. Qed.

Lemma returns_ret {A} (a : A) : always_returns (ret a).
Proof. intros w. by exists a, w. Qed.

Lemma returns_gets {A} (f : World → A) : always_returns (gets f).
Proof. intros w. by exists (f w), w. Qed.

Lemma returns_modify (f : World → World) : always_returns (modify f).
Proof. intros w. by exists tt, (f w). Qed.

Lemma returns_emit (e : Event) : always_returns (emit e).
Proof. apply returns_modify. Qed.

Lemma returns_bind {A B} (m : Prog A) (k : A → Prog B) :
  always_returns m → (∀ a, always_returns (k a)) → always_returns (bind m k).
Proof.
  intros Hm Hk w. destruct (Hm w) as (a & w1 & Hrun). destruct (Hk a w1) as (b & w2 & Hrun').
  exists b, w2. by rewrite (bind_Ok _ _ _ _ _ Hrun).
Qed.

Ltac returns_step :=
  match goal with
  | |- always_returns (bind _ _) => apply returns_bind; [|intros ?]
  | |- always_returns (ret _) => apply returns_ret
  | |- always_returns (gets _) => apply returns_gets
  | |- always_returns (modify _) => apply returns_modify
  | |- always_returns (emit _) => apply returns_emit
  | |- always_returns (print _) => apply returns_emit
  | |- always_returns (if ?b then _ else _) => destruct b
  | |- always_returns (match ?x with _ => _ end) => destruct x
  end.

Lemma returns_close : always_returns close.
Proof. unfold close, stop, set_device. repeat returns_step. Qed.

Lemma returns_finally_block (E : Env) : always_returns (finally_block E).
Proof.
  unfold finally_block, release.
  apply returns_bind; [apply returns_modify|]. intros _.
  apply returns_bind; [simpl; repeat returns_step|]. intros _.
  apply returns_bind; [apply returns_emit|]. intros _.
  apply returns_bind; [apply returns_gets|]. intros [h|].
  - apply returns_bind; [rewrite bool_decide_true by done; apply returns_emit|]. intros _.
    apply returns_bind; [apply returns_close|]. intros _. repeat returns_step.
  - apply returns_bind; [rewrite bool_decide_false by (by intros []); apply returns_ret|]. intros _.
    apply returns_bind; [apply returns_close|]. intros _. repeat returns_step.
Qed.

Lemma ends_in_bind {A B} (P : result B → Prop) (m : Prog A) (k : A → Prog B) :
  always_returns m → (∀ a, ends_in P (k a)) → ends_in P (bind m k).
Proof.
  intros Hm Hk w. destruct (Hm w) as (a & w1 & Hrun).
  rewrite (bind_Ok _ _ _ _ _ Hrun). apply Hk.
Qed.

Lemma protected_loop_returns (E : Env) (fuel : nat) :
  ends_in returned_or_running
    (try_finally
       (try_except (capture_loop E fuel)
          (λ e, print ("Error during capture: " +:+ str_exn e)))
       (finally_block E)).
Proof.
  intros w. unfold try_finally, try_except.
  destruct (capture_loop E fuel w) as [[[]|e|] w1].
  - destruct (returns_finally_block E w1) as ([] & w2 & ->). by left.
  - unfold print, emit, modify.
    destruct (returns_finally_block E
                (set_trace (trace w1 ++ [EvPrint ("Error during capture: " +:+ str_exn e)]) w1))
      as ([] & w2 & ->). by left.
  - by right.
Qed.

Lemma ffplay_display_launches (E : Env) (width height : nat) :
  ffplay_launches E = true → always_returns (ffplay_display E width height).
Proof. intros Hff. unfold ffplay_display. rewrite Hff. apply returns_emit. Qed.

Lemma capture_session_ends (E : Env) (fuel : nat) :
  ffplay_launches E = true → ends_in returned_or_running (capture_session E fuel).
Proof.
  intros Hff. unfold capture_session.
  apply ends_in_bind; [by apply ffplay_display_launches|]. intros _.
  apply ends_in_bind; [apply returns_modify|]. intros _.
  apply ends_in_bind; [apply returns_gets|]. intros gpio.
  apply ends_in_bind; [destruct gpio; repeat returns_step|]. intros _.
  apply ends_in_bind; [apply returns_modify|]. intros _.
  apply ends_in_bind; [apply returns_emit|]. intros _.
  apply protected_loop_returns.
Qed.

Lemma capture_session_no_viewer (E : Env) (fuel : nat) (w : World) :
  ffplay_launches E = false →
  capture_session E fuel w = (Raise (LibraryError "ffplay"), w).
Proof.
  intros Hff. unfold capture_session. apply bind_Raise.
  unfold ffplay_display. by rewrite Hff.
Qed.

Lemma setup_gpio_returns (E : Env) (w : World) :
  ∃ w' evs, setup_gpio E w = (Ok tt, w')
    ∧ trace w' = trace w ++ evs
    ∧ List.filter is_popen evs = [] ∧ List.filter is_capture evs = []
    ∧ tick w' = tick w.
Proof.
  unfold setup_gpio, try_except. prog_unfold.
  destruct (gpio_present E); simpl; do 2 eexists; (split; [reflexivity|]); simpl;
    rewrite <- ?app_assoc; simpl; by repeat split.
Qed.

Lemma keyboard_input_quit (E : Env) (read : string) (rest : list string) (w : World) :
  keyboard_alive w = true → stop_event w = false → lower read = "q" →
  keyboard_input E (read :: rest) w
  = (Ok tt, set_keyboard_alive false
              (set_stop_event true (set_trace (trace w ++ [EvPrint "Quit command received"]) w))).
Proof.
  intros Halive Hstop Hkey.
  cbn [keyboard_input]. unfold bind at 1. unfold gets at 1. unfold bind at 1. unfold gets at 1.
  rewrite Halive, Hstop. cbn [negb].
  unfold try_except. rewrite (bind_Ok _ _ _ _ _ (keyboard_key_q E read w Hkey)).
  reflexivity.
Qed.

Lemma capture_loop_quit (E : Env) (fuel : nat) (c : ascii) (w : World) :
  keyboard_alive w = true → stop_event w = false →
  inputs E (tick w) = [Key c] → lower (String c EmptyString) = "q" →
  ∃ w', capture_loop E (S fuel) w = (Ok tt, w').
Proof.
  intros Halive Hstop Hin Hkey.
  cbn [capture_loop]. unfold bind at 1. unfold gets at 1. rewrite Hin.
  cbn [deliver_all deliver].
  rewrite (bind_Ok _ _ _ _ _
             (bind_Ok _ (λ _, ret tt) _ _ _ (keyboard_input_quit E _ [] w Halive Hstop Hkey))).
  eexists. reflexivity.
Qed.

Lemma capture_session_quit (E : Env) (fuel : nat) (c : ascii) (w : World) :
  ffplay_launches E = true →
  inputs E (tick w) = [Key c] → lower (String c EmptyString) = "q" →
  (capture_session E (S fuel) w).1 = Ok tt.
Proof.
  intros Hff Hin Hkey. unfold capture_session.
  erewrite bind_Ok; [|unfold ffplay_display; rewrite Hff; reflexivity].
  erewrite bind_Ok; [|reflexivity].
  erewrite bind_Ok; [|reflexivity].
  match goal with
  | |- context [bind (if ?g then _ else _)] => destruct g
  end.
  all: erewrite bind_Ok; [|reflexivity].
  all: erewrite bind_Ok; [|reflexivity].
  all: erewrite bind_Ok; [|reflexivity].
  all: unfold try_finally, try_except.
  all: match goal with
       | |- context [capture_loop _ _ ?w5] =>
           destruct (capture_loop_quit E fuel c w5 eq_refl eq_refl Hin Hkey) as [w6 ->];
           destruct (returns_finally_block E w6) as ([] & w7 & ->)
       end.
  all: reflexivity.
Qed.

Lemma main_camera_failure (E : Env) (fuel : nat) (w : World) :
  camera_fault E 0 ≠ None ∨ camera_fault E 1 ≠ None →
  ∃ w' evs, main E fuel w = (Ok tt, w')
    ∧ trace w' = trace w ++ evs
    ∧ List.filter is_popen evs = [] ∧ List.filter is_capture evs = [].
Proof.
  intros Hfault. unfold main.
  erewrite bind_Ok; [|reflexivity].
  match goal with
  | |- context [bind (setup_gpio _) _ ?w0] =>
      destruct (setup_gpio_returns E w0) as (w1 & evs1 & Hsetup & Htr1 & Hp1 & Hc1 & _)
  end.
  erewrite bind_Ok; [|exact Hsetup].
  destruct (init_fails E w1 Hfault) as (e & w2 & evs2 & Hinit & Htr2 & Hev2).
  erewrite bind_Ok;
    [|unfold try_except; rewrite (bind_Raise _ _ _ _ _ Hinit); reflexivity].
  cbn [negb]. eexists. exists ([EvMakedirs recordings_dir] ++ evs1 ++ evs2
                                ++ [EvPrint ("Failed to initialize stereo camera: " +:+ str_exn e)]).
  split; [reflexivity|]. split.
  - cbn [trace set_trace]. rewrite Htr2, Htr1. cbn [trace set_trace]. by rewrite <- !app_assoc.
  - assert (∀ q, (∀ ev, is_startup_event ev = true → q ev = false) →
                 q (EvMakedirs recordings_dir) = false →
                 List.filter q evs1 = [] →
                 (∀ msg, q (EvPrint msg) = false) →
                 List.filter q ([EvMakedirs recordings_dir] ++ evs1 ++ evs2
                   ++ [EvPrint ("Failed to initialize stereo camera: " +:+ str_exn e)]) = [])
      as Hfilter.
    { intros q Hq Hmk Hq1 Hpr. rewrite !List.filter_app, Hq1.
      rewrite (filter_startup_nil q evs2 Hq Hev2). simpl. by rewrite Hmk, Hpr. }
    split; apply Hfilter; try done; by intros [].
Qed.

Lemma main_cameras_fine (E : Env) (fuel : nat) (w : World) :
  camera_fault E 0 = None → camera_fault E 1 = None →
  ∃ w', main E fuel w = capture_session E fuel w' ∧ tick w' = tick w.
Proof.
  intros H0 H1. unfold main.
  erewrite bind_Ok; [|reflexivity].
  match goal with
  | |- context [bind (setup_gpio _) _ ?w0] =>
      destruct (setup_gpio_returns E w0) as (w1 & evs1 & Hsetup & _ & _ & _ & Htick1)
  end.
  erewrite bind_Ok; [|exact Hsetup].
  destruct (init_succeeds E w1 H0 H1) as (w2 & evs2 & Hinit & _ & _ & _ & _ & _ & _ & Htick2).
  erewrite bind_Ok;
    [|unfold try_except; rewrite (bind_Ok _ _ _ _ _ Hinit); reflexivity].
  cbn [negb]. exists w2. split; [reflexivity|]. by rewrite Htick2, Htick1.
Qed.

(** C5, as the code has it: the process exits with code 0 when camera
    initialisation fails ([main] reports it and returns, before the viewer is
    launched and before any capture), and with code 0 whenever it ends after
    the cameras and the viewer have started, as it does when the user types q.
    The one way to a non-zero code is an exception outside the try: the
    viewer that cannot be launched. *)
Theorem exit_code_of_main (E : Env) (fuel : nat) :
  (camera_fault E 0 ≠ None ∨ camera_fault E 1 ≠ None →
     (run E fuel).1 = Some 0%Z
     ∧ List.filter is_popen (trace (run E fuel).2) = []
     ∧ List.filter is_capture (trace (run E fuel).2) = [])
  ∧ (camera_fault E 0 = None → camera_fault E 1 = None →
       (ffplay_launches E = true →
          ((run E fuel).1 = Some 0%Z ∨ (run E fuel).1 = None)
          ∧ (∀ c, inputs E 0 = [Key c] → lower (String c EmptyString) = "q" →
               fuel ≠ 0%nat → (run E fuel).1 = Some 0%Z))
       ∧ (ffplay_launches E = false → (run E fuel).1 = Some 1%Z)).
Proof.
  unfold run. split.
  - intros Hfault.
    destruct (main_camera_failure E fuel boot Hfault) as (w' & evs & -> & Htr & Hp & Hc).
    cbn [fst snd exit_code]. rewrite Htr. by repeat split.
  - intros H0 H1.
    destruct (main_cameras_fine E fuel boot H0 H1) as (w' & -> & Htick).
    split.
    + intros Hff. split.
      * pose proof (capture_session_ends E fuel Hff w') as Hend.
        destruct (capture_session E fuel w') as [r w'']. cbn [fst] in *.
        destruct Hend as [-> | ->]; [by left | by right].
      * intros c Hin Hkey Hfuel. destruct fuel as [|fuel]; [done|].
        pose proof (capture_session_quit E fuel c w' Hff) as Hquit.
        rewrite Htick in Hquit. specialize (Hquit Hin Hkey).
        destruct (capture_session E (S fuel) w') as [r w'']. cbn [fst] in *. by subst r.
    + intros Hff. by rewrite capture_session_no_viewer.
Qed.

Lemma exit_code_of_main_witness :
  ((run env_camera2_missing 3).1 = Some 0%Z
   ∧ List.filter is_popen (trace (run env_camera2_missing 3).2) = []
   ∧ List.filter is_capture (trace (run env_camera2_missing 3).2) = [])
  ∧ (run env_quit 5).1 = Some 0%Z.
Proof.
  split.
  - apply (proj1 (exit_code_of_main env_camera2_missing 3)). right. discriminate.
  - apply (proj2 (proj1 (proj2 (exit_code_of_main env_quit 5) eq_refl eq_refl) eq_refl)
             "q"%char); [reflexivity | reflexivity | discriminate].
Defined.

(** C5 as stated fails: the second camera cannot be opened, [main] prints
    the failure and returns, and the exit code is 0. *)
Lemma camera_failure_exits_zero :
  camera_fault env_camera2_missing 1 = Some StepNew
  ∧ (__init__ env_camera2_missing boot).1 = Raise (LibraryError "Picamera2")
  ∧ (run env_camera2_missing 3).1 = Some 0%Z
  ∧ last (trace (run env_camera2_missing 3).2)
    = Some (EvPrint "Failed to initialize stereo camera: Picamera2").
Proof.
  split; [reflexivity|].
  split; [vm_compute; reflexivity|].
  split; vm_compute; reflexivity.
Qed.

Example session_exits_zero :
  (run env_session 10).1 = Some 0%Z
  ∧ sinks_opened (trace (run env_session 10).2) = 1%nat
  ∧ sinks_closed (trace (run env_session 10).2) = 1%nat
  ∧ length (List.filter is_camera_stop (trace (run env_session 10).2)) = 2%nat.
Proof. repeat split; vm_compute; reflexivity. Qed.

Example no_viewer_exits_one :
  (run (with_ffplay env_fine false) 10).1 = Some 1%Z.
Proof. vm_compute; reflexivity. Qed.

(** ** What a session keeps *)

Lemma preserves_ret {A} (I : World → Prop) (a : A) : preserves I (ret a).
Proof. by intros w r w' HI [= <- <-]. Qed.

Lemma preserves_raise {A} (I : World → Prop) (e : exn) : preserves I (raise (A:=A) e).
Proof. by intros w r w' HI [= <- <-]. Qed.

Lemma preserves_out_of_fuel {A} (I : World → Prop) : preserves I (out_of_fuel (A:=A)).
Proof. by intros w r w' HI [= <- <-]. Qed.

Lemma preserves_lift {A} (I : World → Prop) (x : result A) : preserves I (lift x).
Proof. by intros w r w' HI [= <- <-]. Qed.

Lemma preserves_gets {A} (I : World → Prop) (f : World → A) : preserves I (gets f).
Proof. by intros w r w' HI [= <- <-]. Qed.

Lemma preserves_modify (I : World → Prop) (f : World → World) :
  (∀ w, I w → I (f w)) → preserves I (modify f).
Proof. intros Hf w r w' HI [= <- <-]. by apply Hf. Qed.

Lemma preserves_bind {A B} (I : World → Prop) (m : Prog A) (k : A → Prog B) :
  preserves I m → (∀ a, preserves I (k a)) → preserves I (bind m k).
Proof.
  intros Hm Hk w r w' HI. unfold bind.
  destruct (m w) as [[a|e|] w1] eqn:Hrun; intros Hres.
  - eapply Hk; [|exact Hres]. by eapply Hm.
  - simplify_eq. by eapply Hm.
  - simplify_eq. by eapply Hm.
Qed.

Lemma preserves_try_except {A} (I : World → Prop) (m : Prog A) (h : exn → Prog A) :
  preserves I m → (∀ e, preserves I (h e)) → preserves I (try_except m h).
Proof.
  intros Hm Hh w r w' HI. unfold try_except.
  destruct (m w) as [[a|e|] w1] eqn:Hrun; intros Hres.
  - simplify_eq. by eapply Hm.
  - eapply Hh; [|exact Hres]. by eapply Hm.
  - simplify_eq. by eapply Hm.
Qed.

Lemma writers_balanced_emit (e : Event) (w : World) :
  is_writer_lifecycle e = false →
  writers_balanced w → writers_balanced (set_trace (trace w ++ [e]) w).
Proof.
  unfold is_writer_lifecycle. intros [Hnew Hrel]%orb_false_elim [Hflag Hcount].
  split; [done|]. unfold sinks_opened, sinks_closed in *. simpl.
  rewrite !List.filter_app. simpl. rewrite Hnew, Hrel. rewrite !app_nil_r. exact Hcount.
Qed.

Lemma session_ok_emit (e : Event) :
  is_writer_lifecycle e = false → preserves session_ok (emit e).
Proof.
  intros He. apply preserves_modify. intros w [Hb Hc]. split; [|done].
  by apply writers_balanced_emit.
Qed.

Lemma session_ok_toggle (E : Env) : preserves session_ok (toggle_recording E).
Proof.
  intros w r w' [[Hflag Hcount] Hcam].
  unfold sinks_opened, sinks_closed in Hcount.
  destruct (is_recording w) eqn:Hrec.
  - rewrite toggle_stop by done.
    destruct (out w) as [h|] eqn:Hout; [|done]. intros [= <- <-].
    split; [|done]. split; [done|]. unfold sinks_opened, sinks_closed. simpl.
    rewrite !List.filter_app, !length_app. simpl. lia.
  - rewrite toggle_start by done.
    destruct (out w) as [h|] eqn:Hout; [done|].
    destruct (writer_ctor E (writers_made w)); intros [= <- <-];
      try (split; [|done]; split; [done|]; unfold sinks_opened, sinks_closed; simpl;
           rewrite !List.filter_app, !length_app; simpl; lia).
    split; [|done]. split; [by rewrite Hrec, Hout|]. by rewrite Hout.
Qed.

Ltac session_ok_step :=
  match goal with
  | |- preserves _ (bind _ _) => apply preserves_bind; [|intros ?]
  | |- preserves _ (ret _) => apply preserves_ret
  | |- preserves _ (raise _) => apply preserves_raise
  | |- preserves _ (lift _) => apply preserves_lift
  | |- preserves _ (gets _) => apply preserves_gets
  | |- preserves _ out_of_fuel => apply preserves_out_of_fuel
  | |- preserves _ (toggle_recording _) => apply session_ok_toggle
  | |- preserves _ (try_except _ _) => apply preserves_try_except; [|intros ?]
  | |- preserves _ (emit _) => apply session_ok_emit; reflexivity
  | |- preserves _ (print _) => apply session_ok_emit; reflexivity
  | |- preserves _ (modify _) => apply preserves_modify; (intros ? HI; exact HI)
  | |- preserves _ (if ?b then _ else _) => destruct b
  | |- preserves _ (match ?x with _ => _ end) => destruct x
  end.

Lemma session_ok_capture_stereo (E : Env) : preserves session_ok (capture_stereo E).
Proof. unfold capture_stereo, capture_array. repeat session_ok_step. Qed.

Lemma session_ok_loop_body (E : Env) : preserves session_ok (loop_body E).
Proof.
  unfold loop_body, os_write, write.
  apply preserves_bind; [apply session_ok_capture_stereo|]. intros [frame1 frame2].
  repeat session_ok_step.
Qed.

Lemma session_ok_keyboard_key (E : Env) (read : string) :
  preserves session_ok (keyboard_key E read).
Proof. unfold keyboard_key. repeat session_ok_step. Qed.

Lemma session_ok_button_callback (E : Env) (channel : nat) :
  preserves session_ok (button_callback E channel).
Proof. unfold button_callback. repeat session_ok_step. Qed.

Lemma session_ok_keyboard_input (E : Env) (reads : list string) :
  preserves session_ok (keyboard_input E reads).
Proof.
  induction reads as [|read reads IH]; cbn [keyboard_input]; repeat session_ok_step.
  - apply session_ok_keyboard_key.
  - exact IH.
Qed.

Lemma session_ok_deliver (E : Env) (i : Input) : preserves session_ok (deliver E i).
Proof.
  destruct i as [c|channel]; unfold deliver.
  - apply session_ok_keyboard_input.
  - repeat session_ok_step. apply session_ok_button_callback.
Qed.

Lemma session_ok_deliver_all (E : Env) (ins : list Input) :
  preserves session_ok (deliver_all E ins).
Proof.
  induction ins as [|i ins IH]; cbn [deliver_all]; repeat session_ok_step.
  - apply session_ok_deliver.
  - exact IH.
Qed.

Lemma session_ok_capture_loop (E : Env) (fuel : nat) :
  preserves session_ok (capture_loop E fuel).
Proof.
  induction fuel as [|fuel IH]; cbn [capture_loop]; repeat session_ok_step.
  - apply session_ok_deliver_all.
  - apply session_ok_loop_body.
  - exact IH.
Qed.

Lemma finally_block_runs (E : Env) (w : World) :
  ∃ w', finally_block E w = (Ok tt, w')
    ∧ trace w' = trace w ++ shutdown_events w
    ∧ devices w' = stopped_devices w
    ∧ stop_event w' = true
    ∧ keyboard_alive w' = false
    ∧ is_recording w' = is_recording w ∧ out w' = out w
    ∧ camera1 w' = camera1 w ∧ camera2 w' = camera2 w
    ∧ gpio_available w' = gpio_available w
    ∧ captures w' = captures w.
Proof.
  destruct w as [g r o s c1 c2 d wm cp tk ka tr].
  destruct ka, o as [h|], c1 as [a|], c2 as [b|], g;
    (eexists; split; [lazy -[app insert]; reflexivity|]);
    cbn [trace stop_event keyboard_alive is_recording out camera1 camera2 set_trace
         set_devices set_stop_event set_keyboard_alive gpio_available shutdown_events
         devices stopped_devices captures];
    (split; [by rewrite <- ?app_assoc|]); done.
Qed.

(** ** How a session ends *)

Lemma session_ok_shut_down (E : Env) (w : World) :
  session_ok w →
  ∃ w', finally_block E w = (Ok tt, w') ∧ shutdown_done w'.
Proof.
  intros [[Hflag Hcount] [Hc1 Hc2]].
  destruct (finally_block_runs E w)
    as (w' & Hrun & Htr & Hdev & Hstop & Halive & Hrec & Hout & Hc1' & Hc2' & Hgpio & _).
  exists w'. split; [exact Hrun|].
  split; [|split; [|split; [|split; [done|split; [done|split; [by split; congruence|]]]]]].
  - unfold writers_settled, sinks_opened, sinks_closed in *. rewrite Htr.
    unfold shutdown_events. rewrite Hc1, Hc2.
    rewrite !List.filter_app, !length_app.
    destruct (out w), (gpio_available w); simpl in *; lia.
  - rewrite Hdev. unfold stopped_devices. rewrite Hc1, Hc2. by simplify_map_eq.
  - rewrite Hdev. unfold stopped_devices. rewrite Hc1, Hc2. by simplify_map_eq.
  - exists (trace w). rewrite Htr. unfold shutdown_events.
    by rewrite Hout, Hc1', Hc2', Hgpio.
Qed.

Lemma protected_loop_shuts_down (E : Env) (fuel : nat) (w w' : World) (r : result unit) :
  session_ok w →
  try_finally
    (try_except (capture_loop E fuel)
       (λ e, print ("Error during capture: " +:+ str_exn e)))
    (finally_block E) w = (r, w') →
  r = Ok tt → shutdown_done w'.
Proof.
  intros Hok. unfold try_finally, try_except.
  destruct (capture_loop E fuel w) as [[[]|e|] w1] eqn:Hloop.
  - pose proof (session_ok_capture_loop E fuel w _ w1 Hok Hloop) as Hok1.
    destruct (session_ok_shut_down E w1 Hok1) as (w2 & -> & Hdone).
    by intros [= <- <-] _.
  - pose proof (session_ok_capture_loop E fuel w _ w1 Hok Hloop) as Hok1.
    destruct (print ("Error during capture: " +:+ str_exn e) w1) as [r1 w1'] eqn:Hprint.
    pose proof (session_ok_emit (EvPrint ("Error during capture: " +:+ str_exn e)) eq_refl
                  w1 r1 w1' Hok1 Hprint) as Hok1'.
    injection Hprint as <- _.
    destruct (session_ok_shut_down E w1' Hok1') as (w2 & -> & Hdone).
    by intros [= <- <-] _.
  - by intros [= <- <-] ?.
Qed.

Lemma capture_session_shuts_down (E : Env) (fuel : nat) (w w' : World) (r : result unit) :
  idle_settled w → cameras_held w →
  capture_session E fuel w = (r, w') →
  r = Ok tt → shutdown_done w'.
Proof.
  intros [[Hrec Hout] Hsettled] Hcam. unfold capture_session.
  unfold ffplay_display. destruct (ffplay_launches E).
  2: { rewrite (bind_Raise _ _ w w (LibraryError "ffplay")) by done. by intros [= <- <-] ?. }
  erewrite bind_Ok; [|reflexivity].
  erewrite bind_Ok; [|reflexivity].
  erewrite bind_Ok; [|reflexivity].
  match goal with
  | |- context [bind (if ?g then _ else _)] => destruct g
  end.
  all: erewrite bind_Ok; [|reflexivity].
  all: erewrite bind_Ok; [|reflexivity].
  all: erewrite bind_Ok; [|reflexivity].
  all: apply protected_loop_shuts_down.
  all: split; [|exact Hcam].
  all: split; [reflexivity|].
  all: unfold writers_settled, sinks_opened, sinks_closed in *.
  all: cbn [trace set_trace out init_globals set_out set_is_recording set_stop_event
            set_keyboard_alive].
  all: rewrite !List.filter_app, !length_app; simpl; lia.
Qed.

Lemma idle_settled_emit (e : Event) :
  is_writer_lifecycle e = false → preserves idle_settled (emit e).
Proof.
  unfold is_writer_lifecycle. intros [Hnew Hrel]%orb_false_elim.
  apply preserves_modify. intros w [Hidle Hset]. split; [exact Hidle|].
  unfold writers_settled, sinks_opened, sinks_closed in *. simpl.
  rewrite !List.filter_app. simpl. rewrite Hnew, Hrel. by rewrite !app_nil_r.
Qed.

Ltac idle_settled_step :=
  match goal with
  | |- preserves _ (bind _ _) => apply preserves_bind; [|intros ?]
  | |- preserves _ (ret _) => apply preserves_ret
  | |- preserves _ (raise _) => apply preserves_raise
  | |- preserves _ (gets _) => apply preserves_gets
  | |- preserves _ (try_except _ _) => apply preserves_try_except; [|intros ?]
  | |- preserves _ (emit _) => apply idle_settled_emit; reflexivity
  | |- preserves _ (print _) => apply idle_settled_emit; reflexivity
  | |- preserves _ (sleep _) => apply idle_settled_emit; reflexivity
  | |- preserves _ (modify _) => apply preserves_modify; (intros ? HI; exact HI)
  | |- preserves _ (if ?b then _ else _) => destruct b
  | |- preserves _ (match ?x with _ => _ end) => destruct x
  end.

Lemma idle_settled_setup_gpio (E : Env) : preserves idle_settled (setup_gpio E).
Proof. unfold setup_gpio. repeat idle_settled_step. Qed.

Lemma idle_settled_init (E : Env) : preserves idle_settled (__init__ E).
Proof.
  unfold __init__, init_cameras, Picamera2, configure, start, set_device.
  repeat idle_settled_step.
Qed.

Lemma main_ends_shut_down (E : Env) (fuel : nat) :
  camera_fault E 0 = None → camera_fault E 1 = None →
  (run E fuel).1 = Some 0%Z → shutdown_done (run E fuel).2.
Proof.
  intros H0 H1. unfold run, main.
  erewrite bind_Ok; [|reflexivity].
  match goal with
  | |- context [bind (setup_gpio _) _ ?w0] =>
      assert (idle_settled w0) as Hidle0 by (by repeat split);
      destruct (setup_gpio_returns E w0) as (w1 & evs1 & Hsetup & _)
  end.
  pose proof (idle_settled_setup_gpio E _ _ _ Hidle0 Hsetup) as Hidle1.
  erewrite bind_Ok; [|exact Hsetup].
  destruct (init_succeeds E w1 H0 H1) as (w2 & evs2 & Hinit & _ & _ & Hc1 & Hc2 & _).
  pose proof (idle_settled_init E _ _ _ Hidle1 Hinit) as Hidle2.
  erewrite bind_Ok;
    [|unfold try_except; rewrite (bind_Ok _ _ _ _ _ Hinit); reflexivity].
  cbn [negb].
  destruct (capture_session E fuel w2) as [r w3] eqn:Hsession. cbn [fst snd].
  intros Hexit. apply (capture_session_shuts_down E fuel w2 w3 r); try done.
  by destruct r as [[]| |].
Qed.



(** X2: a run that ends after a session ends with the finally block of
    [main], in the order of the code: the keyboard thread is joined, the
    writer still held (if any) is released, camera 1 then camera 2 is
    stopped, "Cameras stopped" is printed, ffplay is terminated, the pipe is
    closed, GPIO is cleaned up if it was set up, and "Program ended" is the
    last thing printed. Both cameras are stopped, the stop flag is set and
    the keyboard thread is gone. *)
Theorem shutdown_sequence_at_exit (E : Env) (fuel : nat) :
  camera_fault E 0 = None → camera_fault E 1 = None →
  (run E fuel).1 = Some 0%Z →
  let w := (run E fuel).2 in
  devices w !! 0%nat = Some CamStopped
  ∧ devices w !! 1%nat = Some CamStopped
  ∧ stop_event w = true
  ∧ keyboard_alive w = false
  ∧ ∃ before,
      trace w = before
        ++ [EvThreadJoin]
        ++ (if out w is Some h then [EvWriterRelease h] else [])
        ++ [EvCamStop 0; EvCamStop 1; EvPrint "Cameras stopped"; EvTerminate; EvPipeClose]
        ++ (if gpio_available w then [EvGpioCleanup] else [])
        ++ [EvPrint "Program ended"].
Proof.
  intros H0 H1 Hexit w.
  destruct (main_ends_shut_down E fuel H0 H1 Hexit)
    as (_ & Hd0 & Hd1 & Hstop & Halive & [Hc1 Hc2] & before & Htr).
  repeat split; try done. exists before. fold w in Htr, Hc1, Hc2.
  rewrite Htr at 1. unfold shutdown_events. by rewrite Hc1, Hc2.
Qed.

Lemma shutdown_sequence_at_exit_witness :
  let w := (run env_quit_recording 10).2 in
  devices w !! 0%nat = Some CamStopped
  ∧ devices w !! 1%nat = Some CamStopped
  ∧ stop_event w = true
  ∧ keyboard_alive w = false
  ∧ ∃ before,
      trace w = before
        ++ [EvThreadJoin]
        ++ (if out w is Some h then [EvWriterRelease h] else [])
        ++ [EvCamStop 0; EvCamStop 1; EvPrint "Cameras stopped"; EvTerminate; EvPipeClose]
        ++ (if gpio_available w then [EvGpioCleanup] else [])
        ++ [EvPrint "Program ended"].
Proof.
  apply (shutdown_sequence_at_exit env_quit_recording 10); vm_compute; reflexivity.
Defined.

(** ** The commands and the stop flag *)

Lemma toggle_ends (E : Env) (w : World) :
  ∃ r w', toggle_recording E w = (r, w') ∧ r ≠ OutOfFuel.
Proof.
  destruct (is_recording w) eqn:Hrec.
  - rewrite toggle_stop by done. destruct (out w); by do 2 eexists.
  - rewrite toggle_start by done. destruct (writer_ctor E (writers_made w)); by do 2 eexists.
Qed.

Lemma stopped_at_toggle (E : Env) (c : nat) : preserves (stopped_at c) (toggle_recording E).
Proof.
  intros w r w' [Hstop Hcap].
  destruct (is_recording w) eqn:Hrec.
  - rewrite toggle_stop by done. destruct (out w); by intros [= <- <-].
  - rewrite toggle_start by done.
    destruct (writer_ctor E (writers_made w)); by intros [= <- <-].
Qed.

Ltac stopped_at_step :=
  match goal with
  | |- preserves _ (bind _ _) => apply preserves_bind; [|intros ?]
  | |- preserves _ (ret _) => apply preserves_ret
  | |- preserves _ (raise _) => apply preserves_raise
  | |- preserves _ (gets _) => apply preserves_gets
  | |- preserves _ (toggle_recording _) => apply stopped_at_toggle
  | |- preserves _ (try_except _ _) => apply preserves_try_except; [|intros ?]
  | |- preserves _ (emit _) => apply preserves_modify; (intros ? HI; exact HI)
  | |- preserves _ (print _) => apply preserves_modify; (intros ? HI; exact HI)
  | |- preserves _ (modify _) => apply preserves_modify; (intros ? [? ?]; by split)
  | |- preserves _ (if ?b then _ else _) => destruct b
  | |- preserves _ (match ?x with _ => _ end) => destruct x
  end.

Lemma stopped_at_keyboard_input (E : Env) (c : nat) (reads : list string) :
  preserves (stopped_at c) (keyboard_input E reads).
Proof.
  induction reads as [|read reads IH]; cbn [keyboard_input]; repeat stopped_at_step.
  - unfold keyboard_key. repeat stopped_at_step.
  - exact IH.
Qed.

Lemma stopped_at_deliver_all (E : Env) (c : nat) (ins : list Input) :
  preserves (stopped_at c) (deliver_all E ins).
Proof.
  induction ins as [|i ins IH]; cbn [deliver_all]; repeat stopped_at_step; [|exact IH].
  destruct i as [k|channel]; unfold deliver.
  - apply stopped_at_keyboard_input.
  - unfold button_callback. repeat stopped_at_step.
Qed.

(** Whatever it is handed, the keyboard thread ends its slice quietly. *)
Lemma keyboard_input_returns (E : Env) (reads : list string) :
  always_returns (keyboard_input E reads).
Proof.
  induction reads as [|read reads IH]; intros w; cbn [keyboard_input].
  - unfold bind, gets. destruct (keyboard_alive w), (stop_event w); by do 2 eexists.
  - unfold bind at 1 2, gets. cbn beta iota.
    destruct (keyboard_alive w); cbn [negb]; [|by do 2 eexists].
    destruct (stop_event w); [by do 2 eexists|].
    unfold try_except, keyboard_key.
    destruct (decide (lower read = "r")); [|destruct (decide (lower read = "q"))].
    + destruct (toggle_ends E w) as (r & w1 & Hrun & Hr).
      unfold bind at 1 2. rewrite Hrun.
      destruct r as [[]|err|]; [|by do 2 eexists|done].
      cbn beta iota. unfold ret at 1. destruct (IH w1) as ([] & w2 & ->). by do 2 eexists.
    + by do 2 eexists.
    + unfold bind, ret. cbn beta iota. destruct (IH w) as ([] & w2 & ->). by do 2 eexists.
Qed.

Lemma deliver_returns (E : Env) (i : Input) : always_returns (deliver E i).
Proof.
  destruct i as [c|channel]; unfold deliver; [apply keyboard_input_returns|].
  intros w. unfold bind at 1, gets. cbn beta iota.
  destruct (gpio_available w); [|by do 2 eexists].
  unfold try_except, button_callback.
  destruct (decide (channel = RECORD_BUTTON_PIN));
    [|destruct (decide (channel = QUIT_BUTTON_PIN)); by do 2 eexists].
  destruct (toggle_ends E w) as (r & w1 & -> & Hr).
  destruct r as [[]|err|]; [by do 2 eexists|by do 2 eexists|done].
Qed.

Lemma deliver_all_returns (E : Env) (ins : list Input) : always_returns (deliver_all E ins).
Proof.
  induction ins as [|i ins IH]; intros w; cbn [deliver_all].
  - by do 2 eexists.
  - destruct (deliver_returns E i w) as ([] & w1 & Hrun).
    rewrite (bind_Ok _ _ _ _ _ Hrun). apply IH.
Qed.


(** X4: once the stop flag is set the capture loop ends at its next test,
    whatever commands arrive before it: the loop returns, captures no
    further frame and leaves the flag set. *)
Theorem stop_ends_loop (E : Env) (fuel : nat) (w : World) :
  stop_event w = true →
  ∃ w', capture_loop E (S fuel) w = (Ok tt, w')
    ∧ stop_event w' = true
    ∧ captures w' = captures w.
Proof.
  intros Hstop. cbn [capture_loop].
  erewrite bind_Ok; [|reflexivity].
  destruct (deliver_all_returns E (inputs E (tick w)) w) as ([] & w1 & Hrun).
  destruct (stopped_at_deliver_all E (captures w) _ w _ w1 (conj Hstop eq_refl) Hrun)
    as [Hstop1 Hcap1].
  rewrite (bind_Ok _ _ _ _ _ Hrun).
  erewrite bind_Ok; [|reflexivity]. rewrite Hstop1.
  by exists w1.
Qed.

Lemma stop_ends_loop_witness :
  ∃ w', capture_loop env_session 3 (set_stop_event true world_recording) = (Ok tt, w')
    ∧ stop_event w' = true
    ∧ captures w' = captures (set_stop_event true world_recording).
Proof. apply (stop_ends_loop env_session 2). reflexivity. Defined.

(** ** One pass of the loop, case by case *)

Ltac loop_body_unfold :=
  unfold loop_body, capture_stereo, capture_array, os_write, write; prog_unfold.

(** X5: a pass of the capture loop while nothing is recorded. Both
    cameras are read, camera 1 first; the viewer gets the bytes of the
    composed frame converted to BGR, without the REC mark, and that is the
    only thing written: no video writer is touched and the recording state
    is as before. *)
Theorem loop_body_idle (E : Env) (w : World) (a b : nat) (f1 f2 s : ndarray) :
  is_recording w = false →
  camera1 w = Some a → camera2 w = Some b →
  sensor E a (devices w !! a) (captures w) = Ok f1 →
  sensor E b (devices w !! b) (S (captures w)) = Ok f2 →
  hstack f1 f2 = Ok s →
  pipe_accepts E (tick w) = true →
  ∃ w', loop_body E w = (Ok tt, w')
    ∧ trace w' = trace w ++ [EvCapture a; EvCapture b; EvPipeWrite (tobytes (cvtColor s))]
    ∧ captures w' = S (S (captures w))
    ∧ same_session w w'.
Proof.
  intros Hrec Hc1 Hc2 Hf1 Hf2 Hs Hpipe.
  destruct (loop_body E w) as [r w'] eqn:Hrun.
  pose proof (keeps_loop_body E w r w' Hrun) as Hsame.
  revert Hrun. loop_body_unfold.
  rewrite Hc1, Hc2. simpl. rewrite Hf1. simpl. rewrite Hf2. simpl. rewrite Hs, Hrec. simpl.
  rewrite Hpipe. intros [= <- <-]. eexists. split; [reflexivity|]. simpl. rewrite ?Hrec.
  split; [by rewrite <- !app_assoc|]. split; [reflexivity|]. rewrite Hrec in Hsame. exact Hsame.
Qed.

Lemma loop_body_idle_witness :
  let w := set_keyboard_alive true (init_globals (__init__ env_fine boot).2) in
  ∃ w', loop_body env_fine w = (Ok tt, w')
    ∧ trace w' = trace w ++ [EvCapture 0; EvCapture 1; EvPipeWrite (tobytes (cvtColor black_pair))]
    ∧ captures w' = S (S (captures w))
    ∧ same_session w w'.
Proof.
  apply (loop_body_idle env_fine _ 0 1 black_frame black_frame black_pair);
    vm_compute; reflexivity.
Defined.

(** X6: a capture or a composition that fails reaches no sink. If camera 1
    fails, camera 2 is not read at all; if camera 2 fails or the two frames
    differ in height, both were read; in each case the pass raises that
    error and has written nothing to the writer or to the pipe. *)
Theorem loop_body_failure_reaches_no_sink (E : Env) (w : World) (a b : nat) :
  camera1 w = Some a → camera2 w = Some b →
  (∀ e, sensor E a (devices w !! a) (captures w) = Raise e →
     ∃ w', loop_body E w = (Raise e, w') ∧ trace w' = trace w ++ [EvCapture a])
  ∧ (∀ f1 e, sensor E a (devices w !! a) (captures w) = Ok f1 →
       sensor E b (devices w !! b) (S (captures w)) = Raise e →
       ∃ w', loop_body E w = (Raise e, w')
         ∧ trace w' = trace w ++ [EvCapture a; EvCapture b])
  ∧ (∀ f1 f2, sensor E a (devices w !! a) (captures w) = Ok f1 →
       sensor E b (devices w !! b) (S (captures w)) = Ok f2 →
       shape_h f1 ≠ shape_h f2 →
       ∃ w', loop_body E w = (Raise ValueError, w')
         ∧ trace w' = trace w ++ [EvCapture a; EvCapture b]).
Proof.
  intros Hc1 Hc2. split; [|split].
  - intros e Hf1. loop_body_unfold. rewrite Hc1, Hc2. simpl. rewrite Hf1. simpl.
    by eexists.
  - intros f1 e Hf1 Hf2. loop_body_unfold. rewrite Hc1, Hc2. simpl. rewrite Hf1. simpl.
    rewrite Hf2. simpl. eexists. split; [reflexivity|]. simpl. by rewrite <- app_assoc.
  - intros f1 f2 Hf1 Hf2 Hh. loop_body_unfold. rewrite Hc1, Hc2. simpl. rewrite Hf1. simpl.
    rewrite Hf2. simpl. unfold hstack. rewrite decide_False by done.
    eexists. split; [reflexivity|]. simpl. by rewrite <- app_assoc.
Qed.

Lemma loop_body_failure_reaches_no_sink_witness :
  ∃ w', loop_body env_camera2_dropout world_ready
        = (Raise (LibraryError "capture timed out"), w')
    ∧ trace w' = trace world_ready ++ [EvCapture 0; EvCapture 1].
Proof.
  apply (proj1 (proj2 (loop_body_failure_reaches_no_sink env_camera2_dropout world_ready 0 1
                         eq_refl eq_refl)) black_frame); vm_compute; reflexivity.
Defined.

(** X7: a pipe that takes no more data (the viewer was closed) makes the
    pass raise "Broken pipe", and it does so after the recording: while a
    recording runs, the frame has already been written to the video
    writer when the pass fails. *)
Theorem loop_body_broken_pipe (E : Env) (w : World) (a b : nat) (f1 f2 s : ndarray) :
  camera1 w = Some a → camera2 w = Some b →
  sensor E a (devices w !! a) (captures w) = Ok f1 →
  sensor E b (devices w !! b) (S (captures w)) = Ok f2 →
  hstack f1 f2 = Ok s →
  pipe_accepts E (tick w) = false →
  ∃ w', loop_body E w = (Raise (LibraryError "Broken pipe"), w')
    ∧ trace w' = trace w ++ [EvCapture a; EvCapture b]
                 ++ (if is_recording w
                     then if out w is Some h then [EvWriterWrite h (cvtColor s)] else []
                     else []).
Proof.
  intros Hc1 Hc2 Hf1 Hf2 Hs Hpipe. loop_body_unfold.
  rewrite Hc1, Hc2. simpl. rewrite Hf1. simpl. rewrite Hf2. simpl. rewrite Hs. simpl.
  destruct (is_recording w) eqn:Hrec, (out w) as [h|] eqn:Hout; simpl;
    rewrite ?Hpipe, ?Hrec; simpl; rewrite ?Hpipe;
    eexists; (split; [reflexivity|]); simpl; by rewrite <- ?app_assoc.
Qed.

Lemma loop_body_broken_pipe_witness :
  ∃ w', loop_body env_viewer_gone world_recording = (Raise (LibraryError "Broken pipe"), w')
    ∧ trace w' = trace world_recording ++ [EvCapture 0; EvCapture 1]
                 ++ (if is_recording world_recording
                     then if out world_recording is Some h
                          then [EvWriterWrite h (cvtColor black_pair)] else []
                     else []).
Proof.
  apply (loop_body_broken_pipe env_viewer_gone world_recording 0 1 black_frame black_frame);
    vm_compute; reflexivity.
Defined.









(** ** Buttons, close and the keyboard thread *)

(** X9: [button_callback] by channel. The record pin runs
    [toggle_recording], the quit pin prints and sets the stop flag, any other
    channel does nothing; so only the record pin can change the recording
    flag and, from a clear stop flag, the flag is set exactly by the quit
    pin. Without GPIO no button press reaches the program. *)
Theorem button_callback_routes (E : Env) (channel : nat) (w : World) :
  (channel = RECORD_BUTTON_PIN → button_callback E channel w = toggle_recording E w)
  ∧ (channel = QUIT_BUTTON_PIN →
       button_callback E channel w
       = (Ok tt, set_stop_event true (set_trace (trace w ++ [EvPrint "Quit button pressed"]) w)))
  ∧ (channel ≠ RECORD_BUTTON_PIN → channel ≠ QUIT_BUTTON_PIN →
       button_callback E channel w = (Ok tt, w))
  ∧ (∀ r w', button_callback E channel w = (r, w') →
       (is_recording w' ≠ is_recording w → channel = RECORD_BUTTON_PIN)
       ∧ (stop_event w = false → stop_event w' = true ↔ channel = QUIT_BUTTON_PIN))
  ∧ (gpio_available w = false → deliver E (Button channel) w = (Ok tt, w)).
Proof.
  assert (RECORD_BUTTON_PIN ≠ QUIT_BUTTON_PIN) as Hpins by (vm_compute; lia).
  split; [|split; [|split; [|split]]].
  - intros ->. unfold button_callback. by rewrite decide_True.
  - intros ->. unfold button_callback. rewrite decide_False by done. by rewrite decide_True.
  - intros H1 H2. unfold button_callback. by rewrite !decide_False.
  - intros r w'. unfold button_callback.
    destruct (decide (channel = RECORD_BUTTON_PIN)) as [->|H1];
      [|destruct (decide (channel = QUIT_BUTTON_PIN)) as [->|H2]].
    + intros Hrun. pose proof (toggle_keeps_stop _ _ _ _ Hrun) as Hs.
      split; [done|]. intros Hstop. rewrite Hs, Hstop. split; [done|]. intros ?; by subst.
    + intros [= <- <-]. simpl. split; [done|]. done.
    + intros [= <- <-]. split; [done|]. intros ->. split; [done|]. done.
  - intros Hgpio. unfold deliver, bind, gets. by rewrite Hgpio.
Qed.

Lemma stop_again (d : gmap nat CamStatus) (a b : nat) :
  <[b:=CamStopped]> (<[a:=CamStopped]> (<[b:=CamStopped]> (<[a:=CamStopped]> d)))
  = <[b:=CamStopped]> (<[a:=CamStopped]> d).
Proof.
  apply map_eq. intros k. rewrite !lookup_insert. repeat case_decide; congruence.
Qed.

Lemma stop_again_one (d : gmap nat CamStatus) (a : nat) :
  <[a:=CamStopped]> (<[a:=CamStopped]> d) = <[a:=CamStopped]> d.
Proof.
  apply map_eq. intros k. rewrite !lookup_insert. repeat case_decide; congruence.
Qed.

(** X10: [close] can be called twice. Both calls return; the second one
    stops each held camera again (two stop calls per held camera in all),
    leaves the devices as the first call left them, and the camera fields
    are never reset. *)
Theorem close_twice (w : World) :
  ∃ w1 w2, close w = (Ok tt, w1) ∧ close w1 = (Ok tt, w2)
    ∧ camera1 w2 = camera1 w ∧ camera2 w2 = camera2 w
    ∧ devices w1 = stopped_devices w
    ∧ devices w2 = devices w1
    ∧ length (List.filter is_camera_stop (trace w2))
      = (length (List.filter is_camera_stop (trace w))
         + 2 * ((if camera1 w is Some _ then 1 else 0) + (if camera2 w is Some _ then 1 else 0)))%nat.
Proof.
  destruct w as [g r o s c1 c2 d wm cp tk ka tr].
  destruct c1 as [a|], c2 as [b|];
    do 2 eexists; (split; [lazy -[app insert]; reflexivity|]);
    (split; [lazy -[app insert]; reflexivity|]);
    cbn [camera1 camera2 devices trace set_trace set_devices stopped_devices];
    (split; [done|]); (split; [done|]); (split; [done|]);
    (split; [first [done | apply stop_again | apply stop_again_one]|]);
    rewrite !List.filter_app, !length_app; simpl; lia.
Qed.

(** X11: an exception of [toggle_recording] kills the keyboard thread. If
    the r key is read while idle and cv2.VideoWriter raises, the thread ends
    there with the world otherwise unchanged (nothing is recorded, the stop
    flag stays clear), and every later key, q included, is ignored. *)
Theorem keyboard_thread_dies_on_failed_toggle (E : Env) (read : string)
    (rest : list string) (w : World) :
  keyboard_alive w = true → stop_event w = false → is_recording w = false →
  writer_ctor E (writers_made w) = CtorRaises →
  lower read = "r" →
  keyboard_input E (read :: rest) w = (Ok tt, set_keyboard_alive false w)
  ∧ ∀ reads, keyboard_input E reads (set_keyboard_alive false w)
             = (Ok tt, set_keyboard_alive false w).
Proof.
  intros Halive Hstop Hrec Hctor Hkey. split.
  - cbn [keyboard_input]. unfold bind at 1. unfold gets at 1. unfold bind at 1. unfold gets at 1.
    rewrite Halive, Hstop. cbn [negb].
    assert (toggle_recording E w = (Raise (LibraryError "cv2.VideoWriter"), w)) as Htoggle.
    { rewrite toggle_start by done. by rewrite Hctor. }
    assert (keyboard_key E read w = (Raise (LibraryError "cv2.VideoWriter"), w)) as Hk.
    { rewrite keyboard_key_r by done. by rewrite (bind_Raise _ _ _ _ _ Htoggle). }
    unfold try_except. rewrite (bind_Raise _ _ _ _ _ Hk). reflexivity.
  - intros [|read' reads]; reflexivity.
Qed.

Lemma keyboard_thread_dies_on_failed_toggle_witness :
  let w := set_keyboard_alive true (init_globals boot) in
  keyboard_input env_writer_raises ["r"; "q"] w = (Ok tt, set_keyboard_alive false w)
  ∧ ∀ reads, keyboard_input env_writer_raises reads (set_keyboard_alive false w)
             = (Ok tt, set_keyboard_alive false w).
Proof.
  apply (keyboard_thread_dies_on_failed_toggle env_writer_raises "r" ["q"]); reflexivity.
Defined.



(** ** The loop left alone *)

Lemma loop_body_pass (E : Env) (h : nat) (w : World) (a b : nat) :
  undisturbed E h →
  camera1 w = Some a → camera2 w = Some b →
  devices w !! a = Some CamStarted → devices w !! b = Some CamStarted →
  flag_matches_sink w →
  ∃ w', loop_body E w = (Ok tt, w')
    ∧ display_writes (trace w') = S (display_writes (trace w))
    ∧ recorder_writes (trace w')
      = (recorder_writes (trace w) + (if is_recording w then 1 else 0))%nat
    ∧ captures w' = S (S (captures w))
    ∧ tick w' = tick w
    ∧ camera1 w' = camera1 w ∧ camera2 w' = camera2 w
    ∧ devices w' = devices w
    ∧ same_session w w'.
Proof.
  intros (Hin & Hpipe & Hsensor) Hc1 Hc2 Hd1 Hd2 Hflag. unfold flag_matches_sink in Hflag.
  destruct (Hsensor a (captures w)) as (f1 & Hf1 & Hh1).
  destruct (Hsensor b (S (captures w))) as (f2 & Hf2 & Hh2).
  rewrite <- Hd1 in Hf1. rewrite <- Hd2 in Hf2.
  destruct (loop_body E w) as [r w'] eqn:Hrun.
  pose proof (keeps_loop_body E w r w' Hrun) as Hsame.
  revert Hrun. loop_body_unfold.
  rewrite Hc1, Hc2. simpl. rewrite Hf1. simpl. rewrite Hf2. simpl.
  rewrite hstack_ok by congruence. simpl.
  unfold display_writes, recorder_writes.
  destruct (is_recording w) eqn:Hrec, (out w) as [hd|] eqn:Hout; try done;
    simpl; rewrite ?Hpipe, ?Hrec; simpl; rewrite ?Hpipe;
    intros [= <- <-]; eexists; (split; [reflexivity|]);
    (split; [simpl; rewrite !List.filter_app, !length_app; simpl; lia|]);
    (split; [simpl; rewrite !List.filter_app, !length_app; simpl; lia|]);
    (split; [reflexivity|]); (split; [reflexivity|]);
    (split; [exact Hc1|]); (split; [exact Hc2|]); (split; [reflexivity|]); exact Hsame.
Qed.

(** X13: the loop left alone. With no command arriving, started cameras
    that deliver frames of one height and a pipe that takes every frame, n
    passes of the loop are n iterations: 2n captures, n frames to the viewer,
    and n frames to the video writer if a recording runs (none otherwise);
    the loop does not end by itself and the recording state is the one it
    started with. *)
Theorem undisturbed_loop_counts (E : Env) (h n : nat) (w : World) (a b : nat) :
  undisturbed E h →
  camera1 w = Some a → camera2 w = Some b →
  devices w !! a = Some CamStarted → devices w !! b = Some CamStarted →
  flag_matches_sink w → stop_event w = false →
  ∃ w', capture_loop E n w = (OutOfFuel, w')
    ∧ tick w' = (tick w + n)%nat
    ∧ captures w' = (captures w + 2 * n)%nat
    ∧ display_writes (trace w') = (display_writes (trace w) + n)%nat
    ∧ recorder_writes (trace w')
      = (recorder_writes (trace w) + (if is_recording w then n else 0))%nat
    ∧ same_session w w'.
Proof.
  intros Hund. revert w. induction n as [|n IH]; intros w Hc1 Hc2 Hd1 Hd2 Hflag Hstop.
  - exists w. cbn [capture_loop]. split; [reflexivity|].
    split; [lia|]. split; [lia|]. split; [lia|].
    split; [destruct (is_recording w); lia|]. apply same_session_refl.
  - cbn [capture_loop].
    erewrite bind_Ok; [|reflexivity].
    destruct Hund as (Hin & Hpipe & Hsensor). rewrite Hin. cbn [deliver_all].
    erewrite bind_Ok; [|reflexivity].
    erewrite bind_Ok; [|reflexivity]. rewrite Hstop.
    destruct (loop_body_pass E h w a b (conj Hin (conj Hpipe Hsensor)) Hc1 Hc2 Hd1 Hd2 Hflag)
      as (w1 & Hrun & Hdisp & Hrecw & Hcap & Htick & Hc1' & Hc2' & Hdev & Hsame).
    rewrite (bind_Ok _ _ _ _ _ Hrun).
    erewrite bind_Ok; [|reflexivity].
    destruct Hsame as (Hrec1 & Hout1 & Hmade1 & Hstop1 & Hrel1).
    destruct (IH (set_tick (S (tick w)) w1)) as (w2 & Hloop & Htick2 & Hcap2 & Hdisp2 & Hrecw2 & Hsame2).
    { cbn. congruence. }
    { cbn. congruence. }
    { cbn. by rewrite Hdev. }
    { cbn. by rewrite Hdev. }
    { unfold flag_matches_sink in *. cbn [is_recording out set_tick]. by rewrite Hrec1, Hout1. }
    { cbn. congruence. }
    exists w2. split; [exact Hloop|].
    cbn [tick captures trace set_tick is_recording] in Htick2, Hcap2, Hdisp2, Hrecw2.
    destruct Hsame2 as (Hrec2 & Hout2 & Hmade2 & Hstop2 & Hrel2).
    cbn [is_recording out writers_made stop_event trace set_tick] in Hrec2, Hout2, Hmade2, Hstop2, Hrel2.
    split; [lia|]. split; [lia|]. split; [lia|].
    split; [rewrite Hrecw2, Hrecw, Hrec1; destruct (is_recording w); lia|].
    repeat split; try congruence. intros hd Hin'. by apply Hrel1, Hrel2.
Qed.

Lemma undisturbed_loop_counts_witness :
  ∃ w', capture_loop env_fine 10 world_recording = (OutOfFuel, w')
    ∧ tick w' = (tick world_recording + 10)%nat
    ∧ captures w' = (captures world_recording + 2 * 10)%nat
    ∧ display_writes (trace w') = (display_writes (trace world_recording) + 10)%nat
    ∧ recorder_writes (trace w')
      = (recorder_writes (trace world_recording)
         + (if is_recording world_recording then 10 else 0))%nat
    ∧ same_session world_recording w'.
Proof.
  apply (undisturbed_loop_counts env_fine 60 10 world_recording 0 1).
  - split; [done|]. split; [done|]. intros i k. exists black_frame. by split.
  - reflexivity.
  - reflexivity.
  - vm_compute; reflexivity.
  - vm_compute; reflexivity.
  - reflexivity.
  - reflexivity.
Defined.

(** ** Errors around the loop *)

Lemma fresh_counters_setup_gpio (E : Env) : preserves fresh_counters (setup_gpio E).
Proof. unfold setup_gpio. repeat stopped_at_step. Qed.

Lemma fresh_counters_init (E : Env) : preserves fresh_counters (__init__ E).
Proof.
  unfold __init__, init_cameras, Picamera2, configure, start, set_device, sleep.
  repeat stopped_at_step.
Qed.

Lemma main_reaches_session (E : Env) (fuel : nat) :
  camera_fault E 0 = None → camera_fault E 1 = None →
  ∃ w', main E fuel boot = capture_session E fuel w'
    ∧ fresh_counters w'
    ∧ cameras_held w'.
Proof.
  intros H0 H1. unfold main.
  erewrite bind_Ok; [|reflexivity].
  match goal with
  | |- context [bind (setup_gpio _) _ ?w0] =>
      assert (fresh_counters w0) as Hfresh0 by (by split);
      destruct (setup_gpio_returns E w0) as (w1 & evs1 & Hsetup & _)
  end.
  pose proof (fresh_counters_setup_gpio E _ _ _ Hfresh0 Hsetup) as Hfresh1.
  erewrite bind_Ok; [|exact Hsetup].
  destruct (init_succeeds E w1 H0 H1) as (w2 & evs2 & Hinit & _ & _ & Hc1 & Hc2 & _).
  pose proof (fresh_counters_init E _ _ _ Hfresh1 Hinit) as Hfresh2.
  erewrite bind_Ok;
    [|unfold try_except; rewrite (bind_Ok _ _ _ _ _ Hinit); reflexivity].
  cbn [negb]. exists w2. split; [reflexivity|]. split; [exact Hfresh2 | by split].
Qed.

Lemma loop_body_first_capture_fails (E : Env) (w : World) (a b : nat) (e : exn) :
  camera1 w = Some a → camera2 w = Some b →
  sensor E a (devices w !! a) (captures w) = Raise e →
  loop_body E w
  = (Raise e, set_captures (S (captures w)) (set_trace (trace w ++ [EvCapture a]) w)).
Proof.
  intros Hc1 Hc2 Hf1. loop_body_unfold. rewrite Hc1, Hc2. simpl. rewrite Hf1. reflexivity.
Qed.

Lemma capture_loop_capture_error (E : Env) (fuel : nat) (w : World) (a b : nat) (e : exn) :
  stop_event w = false → inputs E (tick w) = [] →
  camera1 w = Some a → camera2 w = Some b →
  sensor E a (devices w !! a) (captures w) = Raise e →
  capture_loop E (S fuel) w
  = (Raise e, set_captures (S (captures w)) (set_trace (trace w ++ [EvCapture a]) w)).
Proof.
  intros Hstop Hin Hc1 Hc2 Hf1. cbn [capture_loop].
  erewrite bind_Ok; [|reflexivity]. rewrite Hin. cbn [deliver_all].
  erewrite bind_Ok; [|reflexivity].
  erewrite bind_Ok; [|reflexivity]. rewrite Hstop.
  by rewrite (bind_Raise _ _ _ _ _ (loop_body_first_capture_fails E w a b e Hc1 Hc2 Hf1)).
Qed.

Lemma capture_session_capture_error (E : Env) (fuel : nat) (w : World) (e : exn) :
  ffplay_launches E = true →
  fresh_counters w → cameras_held w →
  inputs E 0 = [] → (∀ st, sensor E 0 st 0 = Raise e) →
  ∃ w', capture_session E (S fuel) w = (Ok tt, w')
    ∧ EvPrint ("Error during capture: " +:+ str_exn e) ∈ trace w'
    ∧ captures w' = 1%nat.
Proof.
  intros Hff [Hcap Htick] [Hc1 Hc2] Hin Hsensor. unfold capture_session.
  erewrite bind_Ok; [|unfold ffplay_display; rewrite Hff; reflexivity].
  erewrite bind_Ok; [|reflexivity].
  erewrite bind_Ok; [|reflexivity].
  match goal with
  | |- context [bind (if ?g then _ else _)] => destruct g
  end.
  all: erewrite bind_Ok; [|reflexivity].
  all: erewrite bind_Ok; [|reflexivity].
  all: erewrite bind_Ok; [|reflexivity].
  all: unfold try_finally, try_except.
  all: erewrite (capture_loop_capture_error E fuel _ 0 1 e);
    [ | reflexivity | cbn; by rewrite Htick | exact Hc1 | exact Hc2 | cbn; rewrite Hcap; apply Hsensor ].
  all: unfold print, emit, modify.
  all: match goal with
       | |- context [finally_block _ ?v] =>
           destruct (finally_block_runs E v)
             as (w' & -> & Htr & _ & _ & _ & _ & _ & _ & _ & _ & Hcap');
           exists w'; split; [reflexivity|]; split;
             [rewrite Htr; apply elem_of_app; left; cbn [trace set_trace];
              apply elem_of_app; right; apply elem_of_cons; by left
             |rewrite Hcap'; simpl; by rewrite Hcap]
       end.
Qed.


(** X14: an error in the capture loop ends the program in an orderly way.
    If both cameras came up, ffplay started and the first capture of camera 1
    raises, [main] prints "Error during capture: ..." with the error's text,
    runs its finally block and returns (exit code 0): one capture was
    attempted and both cameras are stopped. *)
Theorem capture_error_ends_main (E : Env) (fuel : nat) (e : exn) :
  camera_fault E 0 = None → camera_fault E 1 = None →
  ffplay_launches E = true →
  inputs E 0 = [] → (∀ st, sensor E 0 st 0 = Raise e) →
  fuel ≠ 0%nat →
  let w := (run E fuel).2 in
  (run E fuel).1 = Some 0%Z
  ∧ EvPrint ("Error during capture: " +:+ str_exn e) ∈ trace w
  ∧ captures w = 1%nat
  ∧ devices w !! 0%nat = Some CamStopped
  ∧ devices w !! 1%nat = Some CamStopped.
Proof.
  intros H0 H1 Hff Hin Hsensor Hfuel w.
  assert ((run E fuel).1 = Some 0%Z ∧ EvPrint ("Error during capture: " +:+ str_exn e) ∈ trace w
          ∧ captures w = 1%nat) as (Hexit & Hprint & Hcap).
  { unfold w, run. destruct fuel as [|fuel]; [done|].
    destruct (main_reaches_session E (S fuel) H0 H1) as (w2 & -> & Hfresh & Hcam).
    destruct (capture_session_capture_error E fuel w2 e Hff Hfresh Hcam Hin Hsensor)
      as (w3 & -> & Hprint & Hcap).
    by repeat split. }
  destruct (main_ends_shut_down E fuel H0 H1 Hexit) as (_ & Hd0 & Hd1 & _).
  by repeat split.
Qed.

Lemma capture_error_ends_main_witness :
  let w := (run env_camera1_dead 5).2 in
  (run env_camera1_dead 5).1 = Some 0%Z
  ∧ EvPrint "Error during capture: capture timed out" ∈ trace w
  ∧ captures w = 1%nat
  ∧ devices w !! 0%nat = Some CamStopped
  ∧ devices w !! 1%nat = Some CamStopped.
Proof.
  apply (capture_error_ends_main env_camera1_dead 5 (LibraryError "capture timed out"));
    first [reflexivity | by intros st | discriminate].
Defined.

Lemma no_camera_stopped_emit (e : Event) :
  is_camera_stop e = false → preserves no_camera_stopped (emit e).
Proof.
  intros He. apply preserves_modify. intros w Hw. unfold no_camera_stopped in *. simpl.
  rewrite List.filter_app, Hw. simpl. by rewrite He.
Qed.

Ltac no_camera_stopped_step :=
  match goal with
  | |- preserves _ (bind _ _) => apply preserves_bind; [|intros ?]
  | |- preserves _ (ret _) => apply preserves_ret
  | |- preserves _ (raise _) => apply preserves_raise
  | |- preserves _ (gets _) => apply preserves_gets
  | |- preserves _ (try_except _ _) => apply preserves_try_except; [|intros ?]
  | |- preserves _ (emit _) => apply no_camera_stopped_emit; reflexivity
  | |- preserves _ (print _) => apply no_camera_stopped_emit; reflexivity
  | |- preserves _ (sleep _) => apply no_camera_stopped_emit; reflexivity
  | |- preserves _ (modify _) => apply preserves_modify; (intros ? HI; exact HI)
  | |- preserves _ (if ?b then _ else _) => destruct b
  | |- preserves _ (match ?x with _ => _ end) => destruct x
  end.

Lemma no_camera_stopped_setup_gpio (E : Env) : preserves no_camera_stopped (setup_gpio E).
Proof. unfold setup_gpio. repeat no_camera_stopped_step. Qed.

Lemma no_camera_stopped_init (E : Env) : preserves no_camera_stopped (__init__ E).
Proof.
  unfold __init__, init_cameras, Picamera2, configure, start, set_device.
  repeat no_camera_stopped_step.
Qed.

(** X15: a viewer that cannot be started is not cleaned up after.
    [ffplay_display] is called before the try of [main]: if subprocess.Popen
    raises, the exception leaves [main] (exit code 1) with both cameras held
    and still running, and no camera is ever asked to stop. *)
Theorem viewer_failure_skips_cleanup (E : Env) (fuel : nat) :
  camera_fault E 0 = None → camera_fault E 1 = None →
  ffplay_launches E = false →
  let w := (run E fuel).2 in
  (run E fuel).1 = Some 1%Z
  ∧ camera1 w = Some 0%nat ∧ camera2 w = Some 1%nat
  ∧ devices w !! 0%nat = Some CamStarted
  ∧ devices w !! 1%nat = Some CamStarted
  ∧ List.filter is_camera_stop (trace w) = [].
Proof.
  intros H0 H1 Hff. unfold run, main.
  erewrite bind_Ok; [|reflexivity].
  match goal with
  | |- context [bind (setup_gpio _) _ ?w0] =>
      assert (no_camera_stopped w0) as Hns0 by reflexivity;
      destruct (setup_gpio_returns E w0) as (w1 & evs1 & Hsetup & Htr1 & _)
  end.
  pose proof (no_camera_stopped_setup_gpio E _ _ _ Hns0 Hsetup) as Hns1.
  erewrite bind_Ok; [|exact Hsetup].
  destruct (init_succeeds E w1 H0 H1)
    as (w2 & evs2 & Hinit & Htr2 & Hstart & Hc1 & Hc2 & Hd0 & Hd1 & _).
  pose proof (no_camera_stopped_init E _ _ _ Hns1 Hinit) as Hns2.
  erewrite bind_Ok;
    [|unfold try_except; rewrite (bind_Ok _ _ _ _ _ Hinit); reflexivity].
  cbn [negb]. rewrite capture_session_no_viewer by done. cbn [fst snd exit_code].
  by repeat split.
Qed.

Lemma viewer_failure_skips_cleanup_witness :
  let w := (run (with_ffplay env_fine false) 10).2 in
  (run (with_ffplay env_fine false) 10).1 = Some 1%Z
  ∧ camera1 w = Some 0%nat ∧ camera2 w = Some 1%nat
  ∧ devices w !! 0%nat = Some CamStarted
  ∧ devices w !! 1%nat = Some CamStarted
  ∧ List.filter is_camera_stop (trace w) = [].
Proof. apply (viewer_failure_skips_cleanup (with_ffplay env_fine false) 10); reflexivity. Defined.
